(** * PollingApp: the polls service over the NexaDB collection store

    A shallow embedding of [PollingApp/src/polls] (the [PollsService] class
    and the DTO constants it imports) together with the properties of vote
    tallying, percentages, the vote gate, poll life cycle and category
    summary that the specification states about it.

    Modelling conventions.
    - A JavaScript string is a [string]: a sequence of code units below 256.
    - An object literal [{}] used as a dictionary is given by its own
      properties, a [gmap string _].  A read that finds no own property
      falls back on [Object.prototype], and an assignment under the name
      [__proto__] stores nothing ([JS.get], [JS.set]).
    - A vote counter is a natural number or NaN; the percentage arithmetic
      is done on IEEE 754 binary64 values ([spec_float] at precision 53), as
      [Number] arithmetic is.
    - The NexaDB client is an external collaborator.  A collection is the
      list of its documents in insertion order; [query] returns the matching
      documents in that order, cut at [limit]; [create] appends a document
      under a fresh [_id]; [update] and [delete] address documents by [_id].
    - [generateId()] and [new Date().toISOString()] are inputs of the
      operation that calls them. *)

From Stdlib Require Import ZArith SpecFloat.
From stdpp Require Import gmap strings list fin_maps.

(** ** JavaScript built-ins used by the service *)

Module JS.

(** White space and line terminators below code unit 256, as stripped by
    [String.prototype.trim]: TAB, LF, VT, FF, CR, SP and NBSP. *)
Definition isWhiteSpace (c : Ascii.ascii) : bool :=
  bool_decide (Ascii.nat_of_ascii c ∈ [9; 10; 11; 12; 13; 32; 160]).

Fixpoint trimStart (s : string) : string :=
  match s with
  | EmptyString => EmptyString
  | String c s' => if isWhiteSpace c then trimStart s' else s
  end.

Fixpoint trimEnd (s : string) : string :=
  match s with
  | EmptyString => EmptyString
  | String c s' =>
      match trimEnd s' with
      | EmptyString => if isWhiteSpace c then EmptyString else String c EmptyString
      | t => String c t
      end
  end.

Definition trim (s : string) : string := trimEnd (trimStart s).

(** [Array.prototype.join]. *)
Fixpoint join (sep : string) (l : list string) : string :=
  match l with
  | [] => EmptyString
  | [x] => x
  | x :: l' => x +:+ sep +:+ join sep l'
  end.

(** [a || b] on strings that may be undefined: the empty string and
    [undefined] are falsy. *)
Definition or_else (a : option string) (b : string) : string :=
  match a with
  | Some s => if decide (s = EmptyString) then b else s
  | None => b
  end.

(** [new Set(iterable)]: the distinct elements in order of first insertion. *)
Definition Set_add (s : list string) (x : string) : list string :=
  if decide (x ∈ s) then s else s ++ [x].

Definition Set_from (l : list string) : list string := foldl Set_add [] l.

(** *** Numbers: IEEE 754 binary64 *)

Definition prec : Z := 53.
Definition emax : Z := 1024.

Definition number := spec_float.

Definition of_Z (z : Z) : number := binary_normalize prec emax z 0 false.
Definition of_nat (n : nat) : number := of_Z (Z.of_nat n).

Definition div : number → number → number := SFdiv prec emax.
Definition mul : number → number → number := SFmul prec emax.

(** [Math.round]: the integer closest to the argument, a tie going towards
    plus infinity; NaN, the infinities and integral values are returned
    as they are, and a result of zero keeps the sign of the argument. *)
Definition Math_round (x : number) : number :=
  match x with
  | S754_finite s m e =>
      if (0 <=? e)%Z then x
      else
        let n := cond_Zopp s (Zpos m) in
        let d := (2 ^ (- e))%Z in
        let r := ((2 * n + d) `div` (2 * d))%Z in
        if (r =? 0)%Z then S754_zero s else of_Z r
  | _ => x
  end.

(** The integer an integral number stands for. *)
Definition to_Z (x : number) : option Z :=
  match x with
  | S754_zero _ => Some 0%Z
  | S754_finite s m e =>
      if (0 <=? e)%Z then Some (cond_Zopp s (Zpos m) * 2 ^ e)%Z
      else if (Zpos m `mod` 2 ^ (- e) =? 0)%Z
      then Some (cond_Zopp s (Zpos m `div` 2 ^ (- e)))%Z
      else None
  | _ => None
  end.

(** *** Object literals used as dictionaries *)

(** The primitive values the counter objects hold, or turn into on their
    way to the page: a number that is a natural number, NaN, [null] (what
    JSON makes of NaN), and a string that contains the text of an object or
    of a function ([[object Object]], [function toString() { [native code] }])
    and so does not read as a number. *)
Inductive primitive := Num (n : nat) | NaN | Null | Text.

#[global] Instance primitive_eq_dec : EqDecision primitive.
Proof. solve_decision. Defined.

(** The properties an object literal inherits from [Object.prototype]:
    eleven functions, and the accessor [__proto__], whose getter answers
    [Object.prototype] itself and whose setter ignores a primitive. *)
Definition Object_prototype : list string :=
  [ "constructor"; "__defineGetter__"; "__defineSetter__"; "hasOwnProperty";
    "__lookupGetter__"; "__lookupSetter__"; "isPrototypeOf";
    "propertyIsEnumerable"; "toString"; "valueOf"; "__proto__";
    "toLocaleString" ].

(** What [o[k]] evaluates to: the own property of that name, a primitive;
    else the member of [Object.prototype] of that name, an object (a
    function, or [Object.prototype] itself under [__proto__]); else
    [undefined].  The operators below take and give such values, a
    primitive operand being written [Own]. *)
Inductive value (A : Type) := Undefined | Inherited | Own (a : A).
Arguments Undefined {A}.
Arguments Inherited {A}.
Arguments Own {A} _.

Definition get {A} (o : gmap string A) (k : string) : value A :=
  match o !! k with
  | Some a => Own a
  | None => if decide (k ∈ Object_prototype) then Inherited else Undefined
  end.

(** [o[k] = a] for a primitive [a].  An own property is overwritten; a
    function of [Object.prototype] is shadowed by a new own property; under
    [__proto__] the setter of [Object.prototype] runs and nothing is
    stored. *)
Definition set {A} (o : gmap string A) (k : string) (a : A) : gmap string A :=
  match o !! k with
  | Some _ => <[k := a]> o
  | None => if decide (k = "__proto__") then o else <[k := a]> o
  end.

(** [Object.fromEntries(entries)] defines an own property for every entry,
    whatever its name. *)
Definition Object_fromEntries {A} (entries : list (string * A)) : gmap string A :=
  foldl (λ o entry, <[entry.1 := entry.2]> o) ∅ entries.

(** [v !== undefined] *)
Definition defined {A} (v : value A) : bool :=
  match v with
  | Undefined => false
  | _ => true
  end.

(** [Number(v)]: an object, a function, a text and [undefined] convert to
    NaN, [null] to 0. *)
Definition toNumber (v : value primitive) : number :=
  match v with
  | Own (Num n) => of_nat n
  | Own Null => of_nat 0
  | _ => S754_nan
  end.

(** The value that [v++] stores: [Number(v) + 1]. *)
Definition increment (v : value primitive) : primitive :=
  match v with
  | Own (Num n) => Num (S n)
  | Own Null => Num 1
  | _ => NaN
  end.

(** [v || 0]: 0, NaN, [null] and [undefined] are falsy. *)
Definition or_0 (v : value primitive) : value primitive :=
  match v with
  | Own (Num (S _)) | Own Text | Inherited => v
  | _ => Own (Num 0)
  end.

(** [v + 1]: with an object, a function or a string the operands are
    joined as strings. *)
Definition plus_1 (v : value primitive) : primitive :=
  match v with
  | Own (Num n) => Num (S n)
  | Own Null => Num 1
  | Own NaN | Undefined => NaN
  | Own Text | Inherited => Text
  end.

(** [a + b] on primitives. *)
Definition plus (a b : primitive) : primitive :=
  match a, b with
  | Text, _ | _, Text => Text
  | NaN, _ | _, NaN => NaN
  | Num n, Num m => Num (n + m)
  | Num n, Null | Null, Num n => Num n
  | Null, Null => Num 0
  end.

(** [JSON.parse(JSON.stringify(o))] on an object of counters: the own
    properties are kept, NaN is written as [null]. *)
Definition JSON_roundtrip (o : gmap string primitive) : gmap string primitive :=
  (λ p, match p with NaN => Null | _ => p end) <$> o.

End JS.

(** ** Documents of the two collections *)

Module Poll.
Record t := mk {
  id : string;
  question : string;
  options : list string;
  category : option string;      (* absent on polls stored without one *)
  created_at : string;
  expires_at : option string;    (* [null] is [None] *)
  status : string;
  closed_at : option string;     (* absent until the poll is closed *)
}.

(** The fields written by [close]. *)
Definition set_closed (now : string) (p : t) : t :=
  mk (id p) (question p) (options p) (category p) (created_at p)
     (expires_at p) "closed" (Some now).
End Poll.

Module Vote.
Record t := mk {
  id : string;
  poll_id : string;
  voter_id : string;
  option : string;
  voted_at : string;
}.
End Vote.

(** ** The collection store behind [NexaClient] *)

Module NexaDB.

(** A stored document: the data handed to [create], under the [_id] the
    store gave it. *)
Record Doc (A : Type) := mkDoc { _id : nat; data : A }.
Arguments mkDoc {A} _ _.
Arguments _id {A} _.
Arguments data {A} _.

Record DB := mkDB {
  polls : list (Doc Poll.t);
  votes : list (Doc Vote.t);
  next_id : nat;
}.

Definition empty : DB := mkDB [] [] 0.

(** [NotFoundException] and [BadRequestException] of the web framework,
    with their message. *)
Inductive HttpException :=
| NotFoundException (message : string)
| BadRequestException (message : string).

(** The HTTP status the framework answers with. *)
Definition getStatus (e : HttpException) : nat :=
  match e with
  | NotFoundException _ => 404
  | BadRequestException _ => 400
  end.

(** An operation runs against the store and either throws or returns;
    the store it leaves behind is part of the outcome in both cases. *)
Definition M (A : Type) : Type := DB → (HttpException + A) * DB.

Definition ret {A} (a : A) : M A := λ db, (inr a, db).
Definition throw {A} (e : HttpException) : M A := λ db, (inl e, db).
Definition bind {A B} (m : M A) (k : A → M B) : M B :=
  λ db, match m db with
        | (inl e, db') => (inl e, db')
        | (inr a, db') => k a db'
        end.

(** [for (const x of xs) await body(x)] and [Promise.all(xs.map(body))]. *)
Fixpoint for_of {A} (xs : list A) (body : A → M unit) : M unit :=
  match xs with
  | [] => ret ()
  | x :: xs' => bind (body x) (λ _, for_of xs' body)
  end.

Fixpoint map_all {A B} (xs : list A) (body : A → M B) : M (list B) :=
  match xs with
  | [] => ret []
  | x :: xs' => bind (body x) (λ y, bind (map_all xs' body) (λ ys, ret (y :: ys)))
  end.

Section Client.
Context {A : Type}.

(** [client.query(collection, filter, { limit })]. *)
Definition query_in (P : A → Prop) `{!∀ a, Decision (P a)}
    (limit : nat) (docs : list (Doc A)) : list (Doc A) :=
  take limit (filter (λ d, P (data d)) docs).

(** [client.delete(collection, _id)]. *)
Definition delete_in (i : nat) (docs : list (Doc A)) : list (Doc A) :=
  filter (λ d, _id d ≠ i) docs.

(** [client.update(collection, _id, fields)]. *)
Definition update_in (i : nat) (f : A → A) (docs : list (Doc A)) : list (Doc A) :=
  (λ d, if decide (_id d = i) then mkDoc (_id d) (f (data d)) else d) <$> docs.
End Client.

Definition query_polls (P : Poll.t → Prop) `{!∀ a, Decision (P a)}
    (limit : nat) : M (list (Doc Poll.t)) :=
  λ db, (inr (query_in P limit (polls db)), db).

Definition query_votes (P : Vote.t → Prop) `{!∀ a, Decision (P a)}
    (limit : nat) : M (list (Doc Vote.t)) :=
  λ db, (inr (query_in P limit (votes db)), db).

Definition create_poll (p : Poll.t) : M unit :=
  λ db, (inr (), mkDB (polls db ++ [mkDoc (next_id db) p]) (votes db) (S (next_id db))).

Definition create_vote (v : Vote.t) : M unit :=
  λ db, (inr (), mkDB (polls db) (votes db ++ [mkDoc (next_id db) v]) (S (next_id db))).

Definition update_poll (i : nat) (f : Poll.t → Poll.t) : M unit :=
  λ db, (inr (), mkDB (update_in i f (polls db)) (votes db) (next_id db)).

Definition delete_poll (i : nat) : M unit :=
  λ db, (inr (), mkDB (delete_in i (polls db)) (votes db) (next_id db)).

Definition delete_vote (i : nat) : M unit :=
  λ db, (inr (), mkDB (polls db) (delete_in i (votes db)) (next_id db)).

End NexaDB.

Import NexaDB.

(** The store monad with stdpp's notation: [x ← m; k] awaits [m]. *)
#[global] Instance M_ret : MRet M := @ret.
#[global] Instance M_bind : MBind M := λ A B k m, bind m k.

(** ** Request and response shapes *)

(** The request bodies.  A field that is absent, or holds anything but a
  string (an array for [options]), is [None]. *)
Module CreatePollDto.
Record t := mk {
  question : option string;
  options : option (list string);
  category : option string;
  expires_at : option string;
}.
End CreatePollDto.

Module VoteDto.
Record t := mk {
  voter_id : option string;
  option : option string;
}.
End VoteDto.

(** [{ ...poll, total_votes, vote_counts }] and the same with
  [vote_percentages]; [P] is the poll object that is spread. *)
Module Tallied.
Record t (P : Type) := mk {
  poll : P;
  total_votes : nat;
  vote_counts : gmap string JS.primitive;
}.
Arguments mk {P} _ _ _.
Arguments poll {P} _.
Arguments total_votes {P} _.
Arguments vote_counts {P} _.
End Tallied.

Module Results.
Record t (P : Type) := mk {
  poll : P;
  total_votes : nat;
  vote_counts : gmap string JS.primitive;
  vote_percentages : gmap string JS.number;
}.
Arguments mk {P} _ _ _ _.
Arguments poll {P} _.
Arguments total_votes {P} _.
Arguments vote_counts {P} _.
Arguments vote_percentages {P} _.
End Results.

Module FindAllResponse.
Record t := mk { success : bool; count : nat; polls : list (Tallied.t (Doc Poll.t)) }.
End FindAllResponse.

Module FindOneResponse.
Record t := mk { success : bool; poll : Results.t (Doc Poll.t) }.
End FindOneResponse.

Module CreateResponse.
Record t := mk { success : bool; message : string; poll : Tallied.t Poll.t }.
End CreateResponse.

Module Category.
Record t := mk { name : string; count : JS.value JS.primitive }.
End Category.

Module CategoriesResponse.
Record t := mk { success : bool; categories : list Category.t; total_polls : nat }.
End CategoriesResponse.

Module VoteResponse.
Record t := mk {
  success : bool;
  message : string;
  vote : string * string * string;        (* poll_id, voter_id, option *)
  total_votes : nat;                       (* results.total_votes *)
  vote_counts : gmap string JS.primitive;  (* results.vote_counts *)
}.
End VoteResponse.

Module CloseResponse.
Record t := mk { success : bool; message : string; poll_id : string }.
End CloseResponse.

Module RemoveResponse.
Record t := mk {
  success : bool;
  message : string;
  poll_id : string;                        (* deleted.poll_id *)
  votes_removed : nat;                     (* deleted.votes_removed *)
}.
End RemoveResponse.

(** ** The service *)

Module PollsService.

(** [dto/create-poll.dto.ts] *)
Definition DEFAULT_CATEGORIES : list string :=
  [ "General"; "Technology"; "Sports"; "Entertainment"; "Politics";
    "Food & Drinks"; "Travel"; "Health"; "Education"; "Business" ].

(** The tally that [findAll], [findOne] and [vote] each spell out:
<<
    const voteCounts = {};
    poll.options.forEach((opt) => (voteCounts[opt] = 0));
    votes.forEach((vote) => {
      if (voteCounts[vote.option] !== undefined) voteCounts[vote.option]++;
    });
>> *)
Definition countVote (voteCounts : gmap string JS.primitive) (vote : Doc Vote.t)
    : gmap string JS.primitive :=
  let option := Vote.option (data vote) in
  if JS.defined (JS.get voteCounts option)
  then JS.set voteCounts option (JS.increment (JS.get voteCounts option))
  else voteCounts.

Definition voteCounts (options : list string) (votes : list (Doc Vote.t))
    : gmap string JS.primitive :=
  foldl countVote
    (foldl (λ voteCounts opt, JS.set voteCounts opt (JS.Num 0)) ∅ options)
    votes.

(** [totalVotes > 0 ? Math.round((count / totalVotes) * 100) : 0], for the
    number [count] that [voteCounts[opt]] converts to, and for a counter
    that is a number. *)
Definition percentageOf (count : JS.number) (totalVotes : nat) : JS.number :=
  if decide (0 < totalVotes)
  then JS.Math_round (JS.mul (JS.div count (JS.of_nat totalVotes)) (JS.of_nat 100))
  else JS.of_nat 0.

Definition percentage (count totalVotes : nat) : JS.number :=
  percentageOf (JS.of_nat count) totalVotes.

(** [poll.options.forEach((opt) => { votePercentages[opt] = ... })] *)
Definition votePercentages (options : list string)
    (voteCounts : gmap string JS.primitive) (totalVotes : nat)
    : gmap string JS.number :=
  foldl (λ votePercentages opt,
           JS.set votePercentages opt
             (percentageOf (JS.toNumber (JS.get voteCounts opt)) totalVotes))
        ∅ options.

(** [Object.fromEntries(poll.options.map((o) => [o, 0]))] *)
Definition zeroCounts (options : list string) : gmap string JS.primitive :=
  JS.Object_fromEntries ((λ o, (o, JS.Num 0)) <$> options).

Definition findAll : M FindAllResponse.t :=
  polls ← query_polls (λ _, True) 100;
  pollsWithCounts ← map_all polls (λ poll,
    votes ← query_votes (λ v, Vote.poll_id v = Poll.id (data poll)) 1000;
    ret (Tallied.mk poll (length votes)
            (voteCounts (Poll.options (data poll)) votes)));
  ret (FindAllResponse.mk true (length pollsWithCounts) pollsWithCounts).

Definition findOne (id : string) : M FindOneResponse.t :=
  polls ← query_polls (λ p, Poll.id p = id) 1;
  match polls with
  | [] => throw (NotFoundException "Poll not found")
  | poll :: _ =>
      votes ← query_votes (λ v, Vote.poll_id v = id) 1000;
      let counts := voteCounts (Poll.options (data poll)) votes in
      let totalVotes := length votes in
      ret (FindOneResponse.mk true
              (Results.mk poll totalVotes counts
                 (votePercentages (Poll.options (data poll)) counts totalVotes)))
  end.

Definition create (createPollDto : CreatePollDto.t) (generateId now : string)
    : M CreateResponse.t :=
  match CreatePollDto.question createPollDto with
  | None | Some EmptyString => throw (BadRequestException "Question is required")
  | Some question =>
    match CreatePollDto.options createPollDto with
    | None => throw (BadRequestException "At least 2 options are required")
    | Some options =>
      if decide (length options < 2)
      then throw (BadRequestException "At least 2 options are required")
      else if decide (10 < length options)
      then throw (BadRequestException "Maximum 10 options allowed")
      else
        let poll :=
          Poll.mk generateId (JS.trim question) (JS.trim <$> options)
            (Some (JS.or_else (JS.trim <$> CreatePollDto.category createPollDto)
                              "General"))
            now
            (match CreatePollDto.expires_at createPollDto with
             | Some EmptyString | None => None
             | Some e => Some e
             end)
            "active" None in
        create_poll poll;;
        ret (CreateResponse.mk true "Poll created successfully"
                (Tallied.mk poll 0 (zeroCounts (Poll.options poll))))
    end
  end.

(** [p.category || 'General'] *)
Definition categoryOf (p : Doc Poll.t) : string :=
  JS.or_else (Poll.category (data p)) "General".

(** [categoryCounts[cat] = (categoryCounts[cat] || 0) + 1] *)
Definition countCategory (categoryCounts : gmap string JS.primitive)
    (p : Doc Poll.t) : gmap string JS.primitive :=
  let cat := categoryOf p in
  JS.set categoryCounts cat (JS.plus_1 (JS.or_0 (JS.get categoryCounts cat))).

(** The body of [getCategories] once the polls have been read. *)
Definition categorySummary (polls : list (Doc Poll.t)) : CategoriesResponse.t :=
  let pollCategories := JS.Set_from (categoryOf <$> polls) in
  let allCategories := JS.Set_from (DEFAULT_CATEGORIES ++ pollCategories) in
  let categoryCounts :=
    foldl countCategory
      (foldl (λ categoryCounts cat, JS.set categoryCounts cat (JS.Num 0))
             ∅ allCategories)
      polls in
  CategoriesResponse.mk true
    ((λ name, Category.mk name (JS.get categoryCounts name)) <$> allCategories)
    (length polls).

Definition getCategories : M CategoriesResponse.t :=
  polls ← query_polls (λ _, True) 1000;
  ret (categorySummary polls).

Definition vote (id : string) (voteDto : VoteDto.t) (generateId now : string)
    : M VoteResponse.t :=
  match VoteDto.voter_id voteDto with
  | None | Some EmptyString => throw (BadRequestException "voter_id is required")
  | Some voter_id =>
    match VoteDto.option voteDto with
    | None | Some EmptyString => throw (BadRequestException "option is required")
    | Some option =>
      polls ← query_polls (λ p, Poll.id p = id) 1;
      match polls with
      | [] => throw (NotFoundException "Poll not found")
      | poll :: _ =>
        if decide (Poll.status (data poll) ≠ "active")
        then throw (BadRequestException "Poll is closed")
        else if decide (option ∉ Poll.options (data poll))
        then throw (BadRequestException
                      ("Invalid option. Valid options: "
                       +:+ JS.join ", " (Poll.options (data poll))))
        else
          existingVotes ←
            query_votes (λ v, Vote.poll_id v = id ∧ Vote.voter_id v = voter_id) 1;
          match existingVotes with
          | existing :: _ =>
              throw (BadRequestException
                       ("Already voted: " +:+ Vote.option (data existing)))
          | [] =>
              create_vote (Vote.mk generateId id voter_id option now);;
              allVotes ← query_votes (λ v, Vote.poll_id v = id) 1000;
              ret (VoteResponse.mk true "Vote recorded successfully"
                      (id, voter_id, option)
                      (length allVotes)
                      (voteCounts (Poll.options (data poll)) allVotes))
          end
      end
    end
  end.

Definition close (id : string) (now : string) : M CloseResponse.t :=
  polls ← query_polls (λ p, Poll.id p = id) 1;
  match polls with
  | [] => throw (NotFoundException "Poll not found")
  | poll :: _ =>
      update_poll (_id poll) (Poll.set_closed now);;
      ret (CloseResponse.mk true "Poll closed successfully" id)
  end.

Definition remove (id : string) : M RemoveResponse.t :=
  polls ← query_polls (λ p, Poll.id p = id) 1;
  match polls with
  | [] => throw (NotFoundException "Poll not found")
  | poll :: _ =>
      votes ← query_votes (λ v, Vote.poll_id v = id) 1000;
      for_of votes (λ vote, delete_vote (_id vote));;
      delete_poll (_id poll);;
      ret (RemoveResponse.mk true "Poll deleted successfully" id (length votes))
  end.

End PollsService.

Import PollsService.

(** ** What the specification observes *)

(** The Vote Ledger and Poll Registry read-outs of the specification, taken
    on the whole collection (no limit). *)
Definition findByPoll (poll_id : string) (db : DB) : list (Doc Vote.t) :=
  filter (λ d, Vote.poll_id (data d) = poll_id) (votes db).

Definition findByPollAndVoter (poll_id voter_id : string) (db : DB)
    : list (Doc Vote.t) :=
  filter (λ d, Vote.poll_id (data d) = poll_id ∧ Vote.voter_id (data d) = voter_id)
         (votes db).

Definition getPoll (id : string) (db : DB) : option (Doc Poll.t) :=
  head (filter (λ d, Poll.id (data d) = id) (polls db)).

(** [sum(counts.values())]: the sum of the counters when each of them is
    a number, and [None] when one of them is not. *)
Definition sum_values (counts : gmap string JS.primitive) : option nat :=
  map_fold (λ _ v acc,
              match v, acc with
              | JS.Num n, Some sum => Some (n + sum)
              | _, _ => None
              end)
           (Some 0) counts.

(** The votes of a list that name the option [o]. *)
Definition votesFor (o : string) (votes : list (Doc Vote.t)) : list (Doc Vote.t) :=
  filter (λ v, Vote.option (data v) = o) votes.

(** The polls of a list that fall in the category [name]. *)
Definition pollsIn (name : string) (polls : list (Doc Poll.t)) : list (Doc Poll.t) :=
  filter (λ p, categoryOf p = name) polls.

(** No voter has two votes on one poll. *)
Definition oneVotePerVoter (db : DB) : Prop :=
  ∀ poll_id voter_id, length (findByPollAndVoter poll_id voter_id db) ≤ 1.

(** Every stored vote has an [_id] of its own, below the next one the store
    will give. *)
Definition votesStoredOnce (db : DB) : Prop :=
  NoDup (_id <$> votes db) ∧ Forall (λ d, _id d < next_id db) (votes db).

(** The error taxonomy of the specification.  The service throws two
    exception classes only; by the status they answer with they are the
    validation (400) and the not-found (404) kind.  The conflict kind (409)
    has no exception of the service. *)
Inductive ErrorKind := ValidationError | NotFoundError | ConflictError.

Definition errorKind (e : HttpException) : ErrorKind :=
  match e with
  | BadRequestException _ => ValidationError
  | NotFoundException _ => NotFoundError
  end.

(** The first and the last code unit of a string. *)
Definition firstChar (s : string) : option Ascii.ascii :=
  match s with
  | EmptyString => None
  | String c _ => Some c
  end.

Fixpoint lastChar (s : string) : option Ascii.ascii :=
  match s with
  | EmptyString => None
  | String c EmptyString => Some c
  | String _ s' => lastChar s'
  end.

(** A string of white space only, and a string without white space at
    either end. *)
Fixpoint blank (s : string) : bool :=
  match s with
  | EmptyString => true
  | String c s' => JS.isWhiteSpace c && blank s'
  end.

Definition trimmed (s : string) : Prop :=
  (∀ c, firstChar s = Some c → JS.isWhiteSpace c = false)
  ∧ (∀ c, lastChar s = Some c → JS.isWhiteSpace c = false).

(** The roundings of the fraction [n / d] ([0 < d], [0 <= n]) that the
    specification allows for a percentage: a tie away from zero (which for
    these values is a tie upwards), or a tie to the even neighbour. *)
Definition roundHalfUp (n d : Z) : Z := ((2 * n + d) `div` (2 * d))%Z.

Definition roundHalfEven (n d : Z) : Z :=
  let q := (n `div` d)%Z in
  let r := (n `mod` d)%Z in
  match (2 * r ?= d)%Z with
  | Lt => q
  | Gt => (q + 1)%Z
  | Eq => if Z.even q then q else (q + 1)%Z
  end.

(** ** What the operations do *)

(** The tally entry [findAll] attaches to a listed poll. *)
Definition tallyEntry (db : DB) (poll : Doc Poll.t) : Tallied.t (Doc Poll.t) :=
  let votes := take 1000 (findByPoll (Poll.id (data poll)) db) in
  Tallied.mk poll (length votes) (voteCounts (Poll.options (data poll)) votes).

(** The results [findOne] attaches to the poll it found. *)
Definition resultsEntry (db : DB) (poll : Doc Poll.t) : Results.t (Doc Poll.t) :=
  let votes := take 1000 (findByPoll (Poll.id (data poll)) db) in
  let counts := voteCounts (Poll.options (data poll)) votes in
  Results.mk poll (length votes) counts
    (votePercentages (Poll.options (data poll)) counts (length votes)).

(** The poll object [create] builds from an accepted request. *)
Definition createdPoll (generateId now : string) (category expires_at : option string)
    (question : string) (options : list string) : Poll.t :=
  Poll.mk generateId (JS.trim question) (JS.trim <$> options)
    (Some (JS.or_else (JS.trim <$> category) "General"))
    now
    (match expires_at with
     | Some EmptyString | None => None
     | Some e => Some e
     end)
    "active" None.

(** The count [getCategories] answers with under a name it lists: the
    number of polls in the category, but [Object.prototype] under the name
    __proto__, which no assignment has given a counter. *)
Definition categoryCount (polls : list (Doc Poll.t)) (name : string)
    : JS.value JS.primitive :=
  if decide (name = "__proto__") then JS.Inherited
  else JS.Own (JS.Num (length (pollsIn name polls))).

(** The store after [vote] has appended the voter's vote. *)
Definition appendVote (id voter_id option generateId now : string) (db : DB) : DB :=
  mkDB (polls db)
       (votes db ++ [mkDoc (next_id db) (Vote.mk generateId id voter_id option now)])
       (S (next_id db)).

(** The ways a request can change the store. *)
Inductive storeStep (db : DB) : DB → Prop :=
| step_none : storeStep db db
| step_poll_added poll :
    storeStep db (mkDB (polls db ++ [mkDoc (next_id db) poll]) (votes db)
                       (S (next_id db)))
| step_vote_added id voter option generateId now :
    findByPollAndVoter id voter db = [] →
    storeStep db (appendVote id voter option generateId now db)
| step_poll_updated i f :
    storeStep db (mkDB (update_in i f (polls db)) (votes db) (next_id db))
| step_poll_removed i (dels : list nat) :
    storeStep db (mkDB (delete_in i (polls db))
                       (filter (λ d, _id d ∉ dels) (votes db)) (next_id db)).

(** ** Requests *)

(** One request to [vote], with what [generateId()] and the clock give
    while it runs. *)
Module VoteAttempt.
Record t := mk {
  id : string;
  voteDto : VoteDto.t;
  generateId : string;
  now : string;
}.
End VoteAttempt.

Definition attempt (a : VoteAttempt.t) : M VoteResponse.t :=
  vote (VoteAttempt.id a) (VoteAttempt.voteDto a)
       (VoteAttempt.generateId a) (VoteAttempt.now a).

(** The store after the requests have run one after the other, whether they
    were accepted or not. *)
Definition voteAll (attempts : list VoteAttempt.t) (db : DB) : DB :=
  foldl (λ db a, snd (attempt a db)) db attempts.

(** A request to the service, with what [generateId()] and the clock give
    while it is served. *)
Inductive Request :=
| FindAll
| FindOne (id : string)
| Create (createPollDto : CreatePollDto.t) (generateId now : string)
| GetCategories
| CastVote (id : string) (voteDto : VoteDto.t) (generateId now : string)
| Close (id : string) (now : string)
| Remove (id : string).

(** The store a request leaves behind. *)
Definition serve (db : DB) (r : Request) : DB :=
  match r with
  | FindAll => snd (findAll db)
  | FindOne id => snd (findOne id db)
  | Create dto generateId now => snd (create dto generateId now db)
  | GetCategories => snd (getCategories db)
  | CastVote id dto generateId now => snd (vote id dto generateId now db)
  | Close id now => snd (close id now db)
  | Remove id => snd (remove id db)
  end.

Definition serveAll (rs : list Request) (db : DB) : DB := foldl serve db rs.

(** ** Read-outs of the answers *)

(** What [findOne] reports for a poll: the sum of its counters, its
    [total_votes], and next to them the number of votes stored for it. *)
Definition reportedTally (id : string) (db : DB)
    : option (option nat * nat * nat) :=
  match fst (findOne id db) with
  | inr res =>
      Some (sum_values (Results.vote_counts (FindOneResponse.poll res)),
            Results.total_votes (FindOneResponse.poll res),
            length (findByPoll id db))
  | inl _ => None
  end.

(** The [vote_percentages] of [findOne], option by option in the order of
    the poll, read as integers; [None] where the answer has no integer
    under that name. *)
Definition reportedPercentages (id : string) (db : DB)
    : option (list (string * option Z)) :=
  match fst (findOne id db) with
  | inr res =>
      let r := FindOneResponse.poll res in
      Some ((λ opt, (opt, Results.vote_percentages r !! opt ≫= JS.to_Z))
              <$> Poll.options (data (Results.poll r)))
  | inl _ => None
  end.

(** What [remove] reports as [votes_removed], and the number of votes of
    the poll that are stored once it has run. *)
Definition removalReport (id : string) (db : DB) : option nat * nat :=
  let '(outcome, db') := remove id db in
  (match outcome with
   | inr res => Some (RemoveResponse.votes_removed res)
   | inl _ => None
   end,
   length (findByPoll id db')).

(** The number a [count] of [getCategories] is, if it is one. *)
Definition countNumber (count : JS.value JS.primitive) : option nat :=
  match count with
  | JS.Own (JS.Num n) => Some n
  | _ => None
  end.

(** The names and counts [getCategories] answers with, and its
    [total_polls]. *)
Definition categoriesReport (db : DB)
    : option (list (string * option nat) * nat) :=
  match fst (getCategories db) with
  | inr res =>
      Some ((λ c, (Category.name c, countNumber (Category.count c)))
              <$> CategoriesResponse.categories res,
            CategoriesResponse.total_polls res)
  | inl _ => None
  end.

(** ** Example stores *)

(** The scenario of the specification: the poll "Pick one" with options A
    and B, then a vote of u1 for A and a vote of u2 for B. *)
Definition db_created : DB :=
  snd (create (CreatePollDto.mk (Some "Pick one") (Some ["A"; "B"]) None None)
         "p1" "2024-01-01T00:00:00.000Z" NexaDB.empty).

Definition db_scenario : DB :=
  snd (vote "p1" (VoteDto.mk (Some "u2") (Some "B")) "v2" "2024-01-01T00:00:02.000Z"
   (snd (vote "p1" (VoteDto.mk (Some "u1") (Some "A")) "v1" "2024-01-01T00:00:01.000Z"
      db_created))).

Definition poll_p1 : Doc Poll.t :=
  mkDoc 0 (Poll.mk "p1" "Pick one" ["A"; "B"] (Some "General")
             "2024-01-01T00:00:00.000Z" None "active" None).

(** The poll "Pick one" after it has been closed. *)
Definition db_closed : DB :=
  snd (close "p1" "2024-01-02T00:00:00.000Z" db_scenario).

(** Three requests on the poll "Pick one": u1 votes A, u1 votes again, u2
    votes B. *)
Definition attempts_example : list VoteAttempt.t :=
  [ VoteAttempt.mk "p1" (VoteDto.mk (Some "u1") (Some "A")) "v1" "2024-01-01T00:00:01.000Z";
    VoteAttempt.mk "p1" (VoteDto.mk (Some "u1") (Some "B")) "v2" "2024-01-01T00:00:02.000Z";
    VoteAttempt.mk "p1" (VoteDto.mk (Some "u2") (Some "B")) "v3" "2024-01-01T00:00:03.000Z" ].

(** The poll "Pick one" with one stored vote that names an option the poll
    does not declare. *)
Definition db_stray_vote : DB :=
  mkDB [poll_p1] [mkDoc 1 (Vote.mk "v1" "p1" "u1" "C" "2024-01-01T00:00:01.000Z")] 2.

(** A three-character name for the [i]-th voter, distinct for [i < 17576]. *)
Definition voterName (i : nat) : string :=
  let letter k := Ascii.ascii_of_nat (97 + k `mod` 26) in
  String (letter (i `div` 676)) (String (letter (i `div` 26)) (String (letter i) EmptyString)).

(** The poll "Pick one" with [n] stored votes for A, of [n] voters. *)
Definition db_votes (n : nat) : DB :=
  mkDB [poll_p1]
    ((λ i, mkDoc (S i) (Vote.mk ("v" +:+ voterName i) "p1" (voterName i) "A"
                          "2024-01-01T00:00:01.000Z")) <$> seq 0 n)
    (S n).

(** The poll "Pick one" with [a] stored votes for A followed by [b] stored
    votes for B, each of another voter. *)
Definition db_split (a b : nat) : DB :=
  mkDB [poll_p1]
    ((λ i, mkDoc (S i)
             (Vote.mk ("v" +:+ voterName i) "p1" (voterName i)
                (if decide (i < a) then "A" else "B")
                "2024-01-01T00:00:01.000Z")) <$> seq 0 (a + b))
    (S (a + b)).

(** [n] stored polls in the category Sports, then one in the category
    Science. *)
Definition db_polls (n : nat) : DB :=
  mkDB
    (((λ i, mkDoc i (Poll.mk ("p" +:+ voterName i) "Pick one" ["A"; "B"]
                       (Some "Sports") "2024-01-01T00:00:00.000Z" None
                       "active" None)) <$> seq 0 n)
     ++ [mkDoc n (Poll.mk "last" "Pick one" ["A"; "B"] (Some "Science")
                    "2024-01-01T00:00:00.000Z" None "active" None)])
    [] (S n).

(** A poll with the options __proto__ and B, created by [create], and the
    vote of u1 for __proto__, accepted by [vote]. *)
Definition db_proto_created : DB :=
  snd (create (CreatePollDto.mk (Some "Pick one") (Some ["__proto__"; "B"]) None None)
         "p1" "2024-01-01T00:00:00.000Z" NexaDB.empty).

Definition db_proto : DB :=
  snd (vote "p1" (VoteDto.mk (Some "u1") (Some "__proto__")) "v1"
         "2024-01-01T00:00:01.000Z" db_proto_created).

(** The poll "Pick one" with one stored vote that names the undeclared
    option constructor. *)
Definition db_stray_constructor : DB :=
  mkDB [poll_p1]
    [mkDoc 1 (Vote.mk "v1" "p1" "u1" "constructor" "2024-01-01T00:00:01.000Z")] 2.

(** One poll, created by [create] in the category __proto__. *)
Definition db_proto_category : DB :=
  snd (create (CreatePollDto.mk (Some "Pick one") (Some ["A"; "B"])
                 (Some "__proto__") None)
         "p1" "2024-01-01T00:00:00.000Z" NexaDB.empty).

(** ** The service as a whole *)

(** The exception an outcome carries, if it is one. *)
Definition thrown {A} (outcome : (HttpException + A) * DB) : option HttpException :=
  match fst outcome with
  | inl e => Some e
  | inr _ => None
  end.

(** The exception a request is answered with, if it is refused. *)
Definition failure (db : DB) (r : Request) : option HttpException :=
  match r with
  | FindAll => thrown (findAll db)
  | FindOne id => thrown (findOne id db)
  | Create dto generateId now => thrown (create dto generateId now db)
  | GetCategories => thrown (getCategories db)
  | CastVote id dto generateId now => thrown (vote id dto generateId now db)
  | Close id now => thrown (close id now db)
  | Remove id => thrown (remove id db)
  end.

(** A poll as [create] stores it and [close] leaves it: 2 to 10 options,
    question and options without white space at either end, a category
    that is not empty, and [closed_at] set exactly on a closed poll. *)
Definition pollWellFormed (p : Poll.t) : Prop :=
  2 ≤ length (Poll.options p) ≤ 10
  ∧ trimmed (Poll.question p)
  ∧ Forall trimmed (Poll.options p)
  ∧ (∃ c, Poll.category p = Some c ∧ c ≠ EmptyString)
  ∧ (Poll.status p = "active" ∧ Poll.closed_at p = None
     ∨ Poll.status p = "closed" ∧ Poll.closed_at p ≠ None).

(** A stored vote as [vote] writes it: voter and option are not empty. *)
Definition voteWellFormed (v : Vote.t) : Prop :=
  Vote.voter_id v ≠ EmptyString ∧ Vote.option v ≠ EmptyString.

(** Polls and votes are stored under distinct [_id]s, and no two stored
    polls share an [id]. *)
Definition storedOnce (db : DB) : Prop :=
  NoDup (_id <$> polls db)
  ∧ NoDup (_id <$> votes db)
  ∧ NoDup (Poll.id ∘ data <$> polls db).

(** The sum of the counts of a category list when each of them is a
    number, and [None] when one of them is not. *)
Definition sum_counts (categories : list Category.t) : option nat :=
  foldr (λ c acc,
           match countNumber (Category.count c), acc with
           | Some n, Some sum => Some (n + sum)
           | _, _ => None
           end)
        (Some 0) categories.

(** Counters that are numbers or NaN, as the tally leaves them. *)
Definition numeric (counts : gmap string JS.primitive) : Prop :=
  ∀ k p, counts !! k = Some p → p = JS.NaN ∨ ∃ n, p = JS.Num n.

(** Two poll objects that differ in [status] and [closed_at] at most. *)
Definition sameContent (p p' : Poll.t) : Prop :=
  Poll.id p = Poll.id p'
  ∧ Poll.question p = Poll.question p'
  ∧ Poll.options p = Poll.options p'
  ∧ Poll.category p = Poll.category p'
  ∧ Poll.created_at p = Poll.created_at p'
  ∧ Poll.expires_at p = Poll.expires_at p'.

(** A poll document of the store after a request: a document the store
    had, with the same content and closed if it was, or a new, active one. *)
Definition keptOrCreated (db : DB) (p' : Doc Poll.t) : Prop :=
  (∃ p, p ∈ polls db ∧ _id p = _id p' ∧ sameContent (data p) (data p')
        ∧ (Poll.status (data p) = "closed" → Poll.status (data p') = "closed"))
  ∨ (_id p' = next_id db ∧ Poll.status (data p') = "active").

(** ** The React front end of the polling app *)

(** String methods the front end uses, on code units below 256. *)
Module JsString.

(** [String.prototype.toLowerCase]: A to Z, and the capital letters of
    Latin-1 (U+00C0 to U+00DE without the multiplication sign U+00D7), go
    to the letter 32 places up. *)
Definition lowerChar (c : Ascii.ascii) : Ascii.ascii :=
  let n := Ascii.nat_of_ascii c in
  if bool_decide (65 ≤ n ≤ 90 ∨ (192 ≤ n ≤ 222 ∧ n ≠ 215))
  then Ascii.ascii_of_nat (n + 32)
  else c.

Fixpoint toLowerCase (s : string) : string :=
  match s with
  | EmptyString => EmptyString
  | String c s' => String (lowerChar c) (toLowerCase s')
  end.

Fixpoint startsWith (s sub : string) : bool :=
  match sub, s with
  | EmptyString, _ => true
  | String _ _, EmptyString => false
  | String c sub', String d s' => bool_decide (c = d) && startsWith s' sub'
  end.

(** [String.prototype.includes]. *)
Fixpoint includes (s sub : string) : bool :=
  startsWith s sub
  || match s with
     | EmptyString => false
     | String _ s' => includes s' sub
     end.

End JsString.

(** [ui/src/api/polls.ts] and the functions of [App] that compute on the
    state of the page. *)
Module App.

(** The [Poll] interface of the front end. *)
Record Poll := mkPoll {
  id : string;
  question : string;
  options : list string;
  category : string;
  votes : gmap string JS.primitive;
  total_votes : nat;
  created_at : string;
}.

(** An entry of the answer of [findAll] as [response.json()] gives it: the
    counters have gone through JSON. *)
Definition received (apiPoll : Tallied.t (Doc Poll.t)) : Tallied.t (Doc Poll.t) :=
  Tallied.mk (Tallied.poll apiPoll) (Tallied.total_votes apiPoll)
    (JS.JSON_roundtrip (Tallied.vote_counts apiPoll)).

(** [transformPoll], on a received entry. *)
Definition transformPoll (apiPoll : Tallied.t (Doc Poll.t)) : Poll :=
  let p := data (Tallied.poll apiPoll) in
  mkPoll (Poll.id p) (Poll.question p) (Poll.options p)
    (JS.or_else (Poll.category p) "General")
    (Tallied.vote_counts apiPoll)
    (Tallied.total_votes apiPoll)
    (Poll.created_at p).

(** [fetchPolls], given the answer to GET /polls. *)
Definition fetchPolls (res : FindAllResponse.t) : list Poll :=
  transformPoll <$> (received <$> FindAllResponse.polls res).

(** [filteredPolls]; [filterCategory] is [None] for [null]. *)
Definition matchesCategory (filterCategory : option string) (poll : Poll) : bool :=
  match filterCategory with
  | None | Some EmptyString => true
  | Some c => bool_decide (category poll = c)
  end.

Definition matchesSearch (searchQuery : string) (poll : Poll) : bool :=
  match searchQuery with
  | EmptyString => true
  | _ =>
      JsString.includes (JsString.toLowerCase (question poll))
                        (JsString.toLowerCase searchQuery)
      || existsb (λ opt, JsString.includes (JsString.toLowerCase opt)
                                           (JsString.toLowerCase searchQuery))
                 (options poll)
  end.

Definition filteredPolls (polls : list Poll) (filterCategory : option string)
    (searchQuery : string) : list Poll :=
  filter (λ poll, matchesCategory filterCategory poll
                  && matchesSearch searchQuery poll) polls.

(** [Array.prototype.filter] with a callback that looks at the index. *)
Fixpoint filter_index {A} (keep : A → nat → bool) (i : nat) (l : list A) : list A :=
  match l with
  | [] => []
  | x :: l' =>
      if keep x i then x :: filter_index keep (S i) l' else filter_index keep (S i) l'
  end.

(** The option inputs of the create form. *)
Definition addOption (options : list string) : list string :=
  if decide (length options < 6) then options ++ [EmptyString] else options.

Definition removeOption (index : nat) (options : list string) : list string :=
  if decide (2 < length options)
  then filter_index (λ _ i, negb (bool_decide (i = index))) 0 options
  else options.

(** [updateOption]: the copy of the array with [value] at [index]; at
    the end of the array the assignment appends.  [None]: further out it
    would leave holes, which a list of strings does not have. *)
Definition updateOption (index : nat) (value : string) (options : list string)
    : option (list string) :=
  if decide (index < length options)
  then Some (<[index := value]> options)
  else if decide (index = length options)
  then Some (options ++ [value])
  else None.

(** What the user can do to the option inputs; [updateOption] is called
    from the inputs the form has rendered, one for each index of the
    array. *)
Inductive formStep (options : list string) : list string → Prop :=
| form_add : formStep options (addOption options)
| form_remove index : formStep options (removeOption index options)
| form_update index value options' :
    index < length options →
    updateOption index value options = Some options' →
    formStep options options'
| form_reset : formStep options [EmptyString; EmptyString].

(** The inputs the form starts with. *)
Definition initialOptions : list string := [EmptyString; EmptyString].

(** [handleCreatePoll]: the body it posts, or [None] when it returns
    without a request. *)
Definition handleCreatePoll (question : string) (options : list string)
    (selectedCategory : string) : option CreatePollDto.t :=
  let filled := filter (λ o, JS.trim o ≠ EmptyString) options in
  if decide (JS.trim question = EmptyString ∨ length filled < 2)
  then None
  else Some (CreatePollDto.mk (Some (JS.trim question)) (Some filled)
               (Some selectedCategory) None).

(** [getTotalVotes] and [getVotePercentage], on the [votes] of a fetched
    poll. *)
Definition getTotalVotes (votes : gmap string JS.primitive) : JS.primitive :=
  map_fold (λ _ v sum, JS.plus sum v) (JS.Num 0) votes.

Definition getVotePercentage (votes : gmap string JS.primitive) (option : string)
    : JS.number :=
  let total := getTotalVotes votes in
  if decide (total = JS.Num 0) then JS.of_nat 0
  else JS.Math_round
         (JS.mul (JS.div (JS.toNumber (JS.get votes option))
                         (JS.toNumber (JS.Own total)))
                 (JS.of_nat 100)).

End App.

(** * Properties *)

(** ** Object literals *)

Section Objects.
Context {A : Type}.
Implicit Types (m : gmap string A) (k o : string) (a : A).

Lemma get_Own m k a : m !! k = Some a → JS.get m k = JS.Own a.
Proof. unfold JS.get. by intros ->. Qed.

Lemma get_None m k :
  m !! k = None →
  JS.get m k = if decide (k ∈ JS.Object_prototype) then JS.Inherited else JS.Undefined.
Proof. unfold JS.get. by intros ->. Qed.

Lemma set_lookup m k a o :
  JS.set m k a !! o
  = if decide (k = o ∧ (k ≠ "__proto__" ∨ is_Some (m !! k))) then Some a else m !! o.
Proof.
  unfold JS.set. destruct (m !! k) as [b|] eqn:E.
  - rewrite lookup_insert. destruct (decide (k = o)) as [->|Hne].
    + rewrite decide_True; [done|]. split; [done|]. right. by exists b.
    + rewrite decide_False; [done|]. by intros [? _].
  - destruct (decide (k = "__proto__")) as [->|Hproto].
    + rewrite decide_False; [done|]. intros [_ [?|[? ?]]]; done.
    + rewrite lookup_insert. destruct (decide (k = o)) as [->|Hne].
      * rewrite decide_True; [done|]. split; [done|]. by left.
      * rewrite decide_False; [done|]. by intros [? _].
Qed.

Lemma set_lookup_ne m k a o : k ≠ o → JS.set m k a !! o = m !! o.
Proof. intros Hne. rewrite set_lookup, decide_False; [done|]. by intros [? _]. Qed.

Lemma set_lookup_own m k a b : m !! k = Some b → JS.set m k a !! k = Some a.
Proof.
  intros Hk. rewrite set_lookup, decide_True; [done|].
  split; [done|]. right. by exists b.
Qed.

Lemma set_lookup_new m k a : k ≠ "__proto__" → JS.set m k a !! k = Some a.
Proof.
  intros Hk. rewrite set_lookup, decide_True; [done|]. split; [done|]. by left.
Qed.

Lemma set_proto m a :
  m !! "__proto__" = None → JS.set m "__proto__" a = m.
Proof. unfold JS.set. by intros ->. Qed.

(** An object literal filled by assignments, one for each name of a
    list, has an own property for each of the names but [__proto__]. *)
Lemma foldl_set_lookup (f : string → A) m (names : list string) o :
  m !! "__proto__" = None →
  foldl (λ acc name, JS.set acc name (f name)) m names !! o
  = if decide (o ∈ names ∧ o ≠ "__proto__") then Some (f o) else m !! o.
Proof.
  revert m. induction names as [|x names IH]; intros m Hproto; cbn [foldl].
  - rewrite decide_False; [done|]. by intros [?%elem_of_nil _].
  - rewrite IH.
    2: { rewrite set_lookup, decide_False; [done|].
         intros [-> [?|[? ?]]]; [done | congruence]. }
    destruct (decide (o ∈ names ∧ o ≠ "__proto__")) as [[Hin Hne]|Hnot].
    + rewrite decide_True; [done|]. split; [by right | done].
    + rewrite set_lookup.
      destruct (decide (x = o)) as [->|Hxo].
      * destruct (decide (o = "__proto__")) as [->|Hne].
        -- rewrite !decide_False; [done | by intros [_ ?] |].
           intros [_ [?|[? ?]]]; [done | congruence].
        -- rewrite !decide_True; [done | | ].
           ++ split; [by left | done].
           ++ split; [done | by left].
      * rewrite decide_False by (by intros [? _]).
        rewrite decide_False; [done|].
        intros [[?|?]%elem_of_cons Hne]; [congruence | by apply Hnot].
Qed.

Lemma literal_lookup (f : string → A) (names : list string) o :
  foldl (λ acc name, JS.set acc name (f name)) ∅ names !! o
  = if decide (o ∈ names ∧ o ≠ "__proto__") then Some (f o) else None.
Proof. by rewrite foldl_set_lookup, lookup_empty. Qed.

Lemma fromEntries_lookup (f : string → A) (names : list string) o :
  JS.Object_fromEntries ((λ name, (name, f name)) <$> names) !! o
  = if decide (o ∈ names) then Some (f o) else None.
Proof.
  unfold JS.Object_fromEntries.
  assert (∀ m, foldl (λ acc (entry : string * A), <[entry.1 := entry.2]> acc) m
                 ((λ name, (name, f name)) <$> names) !! o
               = if decide (o ∈ names) then Some (f o) else m !! o) as H.
  { induction names as [|x names IH]; intros m; cbn [foldl fmap list_fmap].
    - rewrite decide_False; [done | by intros ?%elem_of_nil].
    - rewrite IH. cbn [fst snd]. rewrite lookup_insert.
      destruct (decide (o ∈ names)) as [Hin|Hin].
      + by rewrite decide_True by (by right).
      + destruct (decide (x = o)) as [->|Hne].
        * by rewrite decide_True by left.
        * rewrite decide_False; [done|].
          intros [?|?]%elem_of_cons; congruence. }
  by rewrite H, lookup_empty.
Qed.

End Objects.

(** ** The tally *)

Section Tally.
Implicit Types (options : list string) (votes : list (Doc Vote.t)).
Implicit Types (m : gmap string JS.primitive) (o : string).

(** [Object.fromEntries] gives every option a counter. *)
Lemma zeroCounts_lookup options o :
  zeroCounts options !! o = if decide (o ∈ options) then Some (JS.Num 0) else None.
Proof. unfold zeroCounts. apply (fromEntries_lookup (λ _, JS.Num 0)). Qed.

(** One round of the loop over the votes, counter by counter. *)
Lemma countVote_lookup m v o :
  countVote m v !! o
  = if decide (Vote.option (data v) = o)
    then match m !! o with
         | Some p => Some (JS.increment (JS.Own p))
         | None =>
             if decide (o ∈ JS.Object_prototype ∧ o ≠ "__proto__")
             then Some JS.NaN else None
         end
    else m !! o.
Proof.
  unfold countVote. cbv zeta. case_decide as Hv.
  - rewrite Hv. unfold JS.get. destruct (m !! o) as [p|] eqn:E.
    + cbn [JS.defined]. by rewrite (set_lookup_own _ _ _ p).
    + destruct (decide (o ∈ JS.Object_prototype)) as [Hin|Hin]; cbn [JS.defined].
      * destruct (decide (o = "__proto__")) as [->|Hne].
        -- rewrite set_proto by done. rewrite E.
           rewrite decide_False; [done | by intros [_ ?]].
        -- rewrite set_lookup_new by done. by rewrite decide_True.
      * rewrite E. rewrite decide_False; [done | by intros [? _]].
  - destruct (JS.defined _); [|done]. by rewrite set_lookup_ne.
Qed.

Lemma countVote_lookup_ne m v o :
  Vote.option (data v) ≠ o → countVote m v !! o = m !! o.
Proof. intros Hne. by rewrite countVote_lookup, decide_False. Qed.

Lemma foldl_countVote_Num m votes o n :
  m !! o = Some (JS.Num n) →
  foldl countVote m votes !! o = Some (JS.Num (n + length (votesFor o votes))).
Proof.
  revert m n. induction votes as [|v votes IH]; intros m n Hm; cbn [foldl].
  - rewrite Hm. cbn. do 2 f_equal. lia.
  - unfold votesFor. rewrite filter_cons. fold (votesFor o votes).
    case_decide as Hv.
    + rewrite (IH _ (S n)).
      * cbn [length]. do 2 f_equal. lia.
      * rewrite countVote_lookup, decide_True, Hm by done. done.
    + rewrite (IH _ n); [done|]. by rewrite countVote_lookup_ne.
Qed.

Lemma foldl_countVote_NaN m votes o :
  m !! o = Some JS.NaN → foldl countVote m votes !! o = Some JS.NaN.
Proof.
  revert m. induction votes as [|v votes IH]; intros m Hm; cbn [foldl]; [done|].
  apply IH. rewrite countVote_lookup. case_decide; [by rewrite Hm | done].
Qed.

Lemma foldl_countVote_None m votes o :
  m !! o = None →
  foldl countVote m votes !! o
  = if decide (o ∈ JS.Object_prototype ∧ o ≠ "__proto__" ∧ votesFor o votes ≠ [])
    then Some JS.NaN else None.
Proof.
  revert m. induction votes as [|v votes IH]; intros m Hm; cbn [foldl].
  - rewrite Hm. rewrite decide_False; [done | by intros (_ & _ & ?)].
  - unfold votesFor. rewrite filter_cons. fold (votesFor o votes).
    destruct (decide (Vote.option (data v) = o)) as [Hv|Hv].
    + destruct (decide (o ∈ JS.Object_prototype ∧ o ≠ "__proto__")) as [[Hin Hne]|Hnot].
      * rewrite foldl_countVote_NaN.
        -- by rewrite decide_True.
        -- rewrite countVote_lookup, decide_True, Hm by done.
           by rewrite decide_True.
      * rewrite IH.
        -- rewrite !decide_False; [done | | ]; intros (? & ? & _); by apply Hnot.
        -- rewrite countVote_lookup, decide_True, Hm by done.
           by rewrite decide_False.
    + rewrite IH; [done|]. by rewrite countVote_lookup_ne.
Qed.

(** The counters of the tally, name by name.  A declared option other than
    [__proto__] has the number of votes that name it; an undeclared name
    that [Object.prototype] has a function for has NaN once a vote names
    it; no other name has a counter. *)
Lemma voteCounts_lookup options votes o :
  voteCounts options votes !! o
  = if decide (o ∈ options ∧ o ≠ "__proto__")
    then Some (JS.Num (length (votesFor o votes)))
    else if decide (o ∈ JS.Object_prototype ∧ o ≠ "__proto__"
                    ∧ votesFor o votes ≠ [])
    then Some JS.NaN
    else None.
Proof.
  unfold voteCounts.
  pose proof (literal_lookup (λ _, JS.Num 0) options o) as Hinit.
  cbv beta in Hinit.
  case_decide as Ho.
  - by rewrite (foldl_countVote_Num _ _ _ 0).
  - by rewrite foldl_countVote_None.
Qed.

Lemma voteCounts_declared options votes o :
  o ∈ options → o ≠ "__proto__" →
  voteCounts options votes !! o = Some (JS.Num (length (votesFor o votes))).
Proof. intros Ho Hne. rewrite voteCounts_lookup. by rewrite decide_True. Qed.

Lemma voteCounts_get options votes o :
  o ∈ options → o ≠ "__proto__" →
  JS.get (voteCounts options votes) o = JS.Own (JS.Num (length (votesFor o votes))).
Proof. intros Ho Hne. apply get_Own. by apply voteCounts_declared. Qed.

Lemma voteCounts_proto options votes :
  voteCounts options votes !! "__proto__" = None.
Proof.
  rewrite voteCounts_lookup. rewrite !decide_False; [done | |].
  - by intros (_ & ? & _).
  - by intros [_ ?].
Qed.

(** *** The sum of the counters *)

Lemma sum_values_insert m o p :
  m !! o = None →
  sum_values (<[o := p]> m)
  = match p, sum_values m with
    | JS.Num n, Some sum => Some (n + sum)
    | _, _ => None
    end.
Proof.
  intros H. unfold sum_values. rewrite map_fold_insert_L; [done | | done].
  intros j1 j2 z1 z2 y _ _ _.
  destruct z1, z2, y; try done. f_equal. lia.
Qed.

Lemma sum_values_bump m o n :
  m !! o = Some (JS.Num n) →
  sum_values (<[o := JS.Num (S n)]> m) = S <$> sum_values m.
Proof.
  intros H.
  rewrite <- (insert_delete_eq m o (JS.Num (S n))).
  rewrite <- (insert_delete_id m o (JS.Num n) H) at 2.
  rewrite !sum_values_insert by apply lookup_delete_eq.
  by destruct (sum_values (delete o m)).
Qed.

Lemma sum_values_zero m :
  (∀ o p, m !! o = Some p → p = JS.Num 0) → sum_values m = Some 0.
Proof.
  induction m as [|o p m Hnone IH] using map_ind; intros Hz.
  - done.
  - rewrite sum_values_insert by done.
    rewrite (Hz o p) by apply lookup_insert_eq.
    rewrite IH; [done|]. intros o' p' H'. apply (Hz o').
    rewrite lookup_insert_ne; [done | congruence].
Qed.

Lemma countVote_counted m v n :
  m !! Vote.option (data v) = Some (JS.Num n) →
  countVote m v = <[Vote.option (data v) := JS.Num (S n)]> m.
Proof.
  intros Hm. unfold countVote. cbv zeta. rewrite (get_Own _ _ _ Hm).
  cbn [JS.defined JS.increment]. unfold JS.set. by rewrite Hm.
Qed.

(** Votes that each find a counter that is a number add one to the sum. *)
Lemma sum_values_foldl_countVote m votes :
  (∀ v, v ∈ votes → ∃ n, m !! Vote.option (data v) = Some (JS.Num n)) →
  sum_values (foldl countVote m votes) = (λ sum, sum + length votes) <$> sum_values m.
Proof.
  revert m. induction votes as [|v votes IH]; intros m Hall; cbn [foldl].
  - destruct (sum_values m); cbn; [f_equal; lia | done].
  - destruct (Hall v) as [n Hn]; [by left|].
    rewrite IH.
    + rewrite (countVote_counted _ _ _ Hn), (sum_values_bump _ _ _ Hn).
      destruct (sum_values m); cbn; [f_equal; lia | done].
    + intros v' Hv'. destruct (Hall v') as [n' Hn']; [by right|].
      rewrite (countVote_counted _ _ _ Hn).
      destruct (decide (Vote.option (data v) = Vote.option (data v'))) as [<-|Hne].
      * exists (S n). apply lookup_insert_eq.
      * exists n'. by rewrite lookup_insert_ne.
Qed.

(** When every vote names a declared option other than [__proto__], the
    counters add up to the number of votes. *)
Lemma sum_values_voteCounts_all options votes :
  (∀ v, v ∈ votes →
     Vote.option (data v) ∈ options ∧ Vote.option (data v) ≠ "__proto__") →
  sum_values (voteCounts options votes) = Some (length votes).
Proof.
  intros Hall. unfold voteCounts. rewrite sum_values_foldl_countVote.
  - rewrite sum_values_zero; [done|].
    intros o p. rewrite (literal_lookup (λ _, JS.Num 0)). case_decide; congruence.
  - intros v Hv. exists 0. rewrite (literal_lookup (λ _, JS.Num 0)).
    rewrite decide_True; [done|]. by apply Hall.
Qed.

Lemma filter_all {A} (P : A → Prop) `{!∀ a, Decision (P a)} (l : list A) :
  (∀ a, a ∈ l → P a) → filter P l = l.
Proof.
  induction l as [|a l IH]; intros Hall; [done|].
  rewrite filter_cons_True by (apply Hall; left).
  f_equal. apply IH. intros b Hb. apply Hall. by right.
Qed.

End Tally.

(** ** Running the operations *)

(** Unfolds the sequencing of an operation down to the store accesses. *)
Ltac run_db :=
  unfold mbind, M_bind, bind, ret, throw,
    query_polls, query_votes, create_poll, create_vote,
    update_poll, delete_poll, delete_vote; cbn beta iota.

Section Queries.
Context {A : Type}.
Implicit Types (docs : list (Doc A)) (P : A → Prop).

Lemma query_in_1 P `{!∀ a, Decision (P a)} docs :
  query_in P 1 docs
  = match head (filter (λ d, P (data d)) docs) with
    | Some d => [d]
    | None => []
    end.
Proof.
  unfold query_in. destruct (filter _ docs) as [|d l]; [done|].
  simpl. by rewrite take_0.
Qed.

Lemma query_in_length P `{!∀ a, Decision (P a)} limit docs :
  length (query_in P limit docs)
  = limit `min` length (filter (λ d, P (data d)) docs).
Proof. unfold query_in. apply length_take. Qed.

Lemma query_in_all P `{!∀ a, Decision (P a)} limit docs :
  length (filter (λ d, P (data d)) docs) ≤ limit →
  query_in P limit docs = filter (λ d, P (data d)) docs.
Proof. intros Hle. unfold query_in. by apply take_ge. Qed.

Lemma query_in_True limit docs :
  query_in (λ _, True) limit docs = take limit docs.
Proof.
  unfold query_in. f_equal. apply filter_all. done.
Qed.
End Queries.

(** [Promise.all] over a body that only reads the store. *)
Lemma map_all_reads {A B} (g : DB → A → B) (body : A → M B) (xs : list A) db :
  (∀ x, body x db = (inr (g db x), db)) →
  map_all xs body db = (inr (g db <$> xs), db).
Proof.
  intros Hbody. induction xs as [|x xs IH]; [done|].
  cbn [map_all]. unfold bind. by rewrite Hbody, IH.
Qed.

Lemma getPoll_id id db poll : getPoll id db = Some poll → Poll.id (data poll) = id.
Proof.
  unfold getPoll. intros H%head_Some_elem_of.
  by apply list_elem_of_filter in H as [? _].
Qed.

Lemma getPoll_elem_of id db poll : getPoll id db = Some poll → poll ∈ polls db.
Proof.
  unfold getPoll. intros H%head_Some_elem_of.
  by apply list_elem_of_filter in H as [_ ?].
Qed.

Lemma findAll_run db :
  findAll db
  = (inr (FindAllResponse.mk true (length (take 100 (polls db)))
            (tallyEntry db <$> take 100 (polls db))), db).
Proof.
  unfold findAll. run_db. rewrite query_in_True.
  rewrite (map_all_reads tallyEntry); [by rewrite length_fmap | done].
Qed.

Lemma findOne_found id db poll :
  getPoll id db = Some poll →
  findOne id db = (inr (FindOneResponse.mk true (resultsEntry db poll)), db).
Proof.
  intros Hget. unfold findOne. run_db. rewrite query_in_1.
  unfold getPoll in Hget. rewrite Hget.
  unfold resultsEntry. by rewrite (getPoll_id id db poll).
Qed.

Lemma findOne_missing id db :
  getPoll id db = None →
  findOne id db = (inl (NotFoundException "Poll not found"), db).
Proof.
  intros Hget. unfold findOne. run_db. rewrite query_in_1.
  unfold getPoll in Hget. by rewrite Hget.
Qed.

(** ** Tallies as the operations report them *)

Lemma votesFor_app o (vs1 vs2 : list (Doc Vote.t)) :
  votesFor o (vs1 ++ vs2) = votesFor o vs1 ++ votesFor o vs2.
Proof. apply filter_app. Qed.

Lemma votesFor_skip o v (vs : list (Doc Vote.t)) :
  Vote.option (data v) ≠ o → votesFor o (v :: vs) = votesFor o vs.
Proof. intros Hne. unfold votesFor. by rewrite filter_cons_False. Qed.

(** C8 at a poll that [create] has accepted with the options __proto__ and
    B, and at a stored vote for constructor. The tally gives the declared
    option __proto__ no counter: the keys are not the declared options, and
    the vote that [vote] has accepted for __proto__ is in the total but in
    no counter. A stored vote for the undeclared option constructor is not
    ignored: it leaves a counter constructor that holds NaN. The claim asks
    for a counter under every declared option, and for the counters of the
    declared options only. *)
Theorem tally_misses_inherited_names :
  (∃ poll, getPoll "p1" db_proto_created = Some poll
     ∧ Poll.options (data poll) = ["__proto__"; "B"]
     ∧ findOne "p1" db_proto_created
       = (inr (FindOneResponse.mk true
                 (Results.mk poll 0 {[ "B" := JS.Num 0 ]} {[ "B" := JS.of_nat 0 ]})),
          db_proto_created)
     ∧ Vote.option ∘ data <$> findByPoll "p1" db_proto = ["__proto__"]
     ∧ findOne "p1" db_proto
       = (inr (FindOneResponse.mk true
                 (Results.mk poll 1 {[ "B" := JS.Num 0 ]} {[ "B" := JS.of_nat 0 ]})),
          db_proto))
  ∧ dom (voteCounts ["__proto__"; "B"] []) ≠ list_to_set ["__proto__"; "B"]
  ∧ (getPoll "p1" db_stray_constructor = Some poll_p1
     ∧ Poll.options (data poll_p1) = ["A"; "B"]
     ∧ Vote.option ∘ data <$> findByPoll "p1" db_stray_constructor = ["constructor"]
     ∧ findOne "p1" db_stray_constructor
       = (inr (FindOneResponse.mk true
                 (Results.mk poll_p1 1
                    {[ "A" := JS.Num 0; "B" := JS.Num 0; "constructor" := JS.NaN ]}
                    {[ "A" := JS.of_nat 0; "B" := JS.of_nat 0 ]})),
          db_stray_constructor))
  ∧ voteCounts ["A"; "B"] (votes db_stray_constructor) ≠ voteCounts ["A"; "B"] [].
Proof.
  split; [|split; [|split]].
  - eexists. split; [reflexivity|]. repeat split; vm_compute; reflexivity.
  - intros H.
    assert ("__proto__" ∈ dom (voteCounts ["__proto__"; "B"] [])) as Hin.
    { rewrite H. set_solver. }
    apply elem_of_dom in Hin as [p Hp]. by rewrite voteCounts_proto in Hp.
  - repeat split; vm_compute; reflexivity.
  - intros H.
    assert (voteCounts ["A"; "B"] (votes db_stray_constructor) !! "constructor"
            = voteCounts ["A"; "B"] [] !! "constructor") as Hc by (by rewrite H).
    vm_compute in Hc. congruence.
Qed.

Lemma tallyEntry_results (db : DB) (poll : Doc Poll.t) :
  Tallied.total_votes (tallyEntry db poll)
  = Results.total_votes (resultsEntry db poll)
  ∧ Tallied.vote_counts (tallyEntry db poll)
    = Results.vote_counts (resultsEntry db poll).
Proof. done. Qed.

Lemma resultsEntry_exact (db : DB) (poll : Doc Poll.t) :
  Forall (λ v, Vote.option (data v) ∈ Poll.options (data poll)
               ∧ Vote.option (data v) ≠ "__proto__")
         (findByPoll (Poll.id (data poll)) db) →
  length (findByPoll (Poll.id (data poll)) db) ≤ 1000 →
  sum_values (Results.vote_counts (resultsEntry db poll))
  = Some (Results.total_votes (resultsEntry db poll))
  ∧ Results.total_votes (resultsEntry db poll)
    = length (findByPoll (Poll.id (data poll)) db).
Proof.
  intros Hdeclared Hlimit.
  unfold resultsEntry. cbn [Results.vote_counts Results.total_votes].
  rewrite take_ge by done. split; [|done].
  apply sum_values_voteCounts_all. by apply Forall_forall.
Qed.

(** C1, as the code has it. For a poll whose stored votes all name one of
    its declared options, the name __proto__ aside, and number at most 1000
    (the limit of the vote query), the [vote_counts] that [findOne] and
    [findAll] attach are numbers that add up to [total_votes], and
    [total_votes] is the number of votes stored for the poll. *)
Theorem tally_sum_total_count (db : DB) (poll : Doc Poll.t) :
  Forall (λ v, Vote.option (data v) ∈ Poll.options (data poll)
               ∧ Vote.option (data v) ≠ "__proto__")
         (findByPoll (Poll.id (data poll)) db) →
  length (findByPoll (Poll.id (data poll)) db) ≤ 1000 →
  (getPoll (Poll.id (data poll)) db = Some poll →
   ∃ r, findOne (Poll.id (data poll)) db = (inr (FindOneResponse.mk true r), db)
        ∧ sum_values (Results.vote_counts r) = Some (Results.total_votes r)
        ∧ Results.total_votes r = length (findByPoll (Poll.id (data poll)) db))
  ∧ (∃ res, findAll db = (inr res, db)
        ∧ ∀ t, t ∈ FindAllResponse.polls res → Tallied.poll t = poll →
            sum_values (Tallied.vote_counts t) = Some (Tallied.total_votes t)
            ∧ Tallied.total_votes t
              = length (findByPoll (Poll.id (data poll)) db)).
Proof.
  intros Hdeclared Hlimit.
  destruct (resultsEntry_exact db poll Hdeclared Hlimit) as [Hsum Htotal].
  split.
  - intros Hget. eexists. split; [by apply findOne_found | done].
  - eexists. split; [apply findAll_run|].
    intros t Ht Hpoll. cbn [FindAllResponse.polls] in Ht.
    apply list_elem_of_fmap in Ht as (q & -> & _).
    cbn [tallyEntry Tallied.poll] in Hpoll. by subst q.
Qed.

Lemma tally_sum_total_count_witness :
  (getPoll "p1" db_scenario = Some poll_p1 →
   ∃ r, findOne "p1" db_scenario = (inr (FindOneResponse.mk true r), db_scenario)
        ∧ sum_values (Results.vote_counts r) = Some (Results.total_votes r)
        ∧ Results.total_votes r = length (findByPoll "p1" db_scenario))
  ∧ (∃ res, findAll db_scenario = (inr res, db_scenario)
        ∧ ∀ t, t ∈ FindAllResponse.polls res → Tallied.poll t = poll_p1 →
            sum_values (Tallied.vote_counts t) = Some (Tallied.total_votes t)
            ∧ Tallied.total_votes t = length (findByPoll "p1" db_scenario)).
Proof.
  apply (tally_sum_total_count db_scenario poll_p1).
  - compute_done.
  - vm_compute. lia.
Defined.

(** C1 fails as stated. With one stored vote for the undeclared option C
    the counters add up to 0 while the total is 1; with 1001 stored votes
    the total is 1000. *)
Lemma tally_sum_total_count_fails :
  reportedTally "p1" db_stray_vote = Some (Some 0, 1, 1)
  ∧ reportedTally "p1" (db_votes 1001) = Some (Some 1000, 1000, 1001).
Proof. split; vm_compute; reflexivity. Qed.

(** ** The vote gate *)

Lemma query_in_1_nil {A} (P : A → Prop) `{!∀ a, Decision (P a)} (docs : list (Doc A)) :
  query_in P 1 docs = [] ↔ filter (λ d, P (data d)) docs = [].
Proof.
  rewrite query_in_1. by destruct (filter _ docs).
Qed.

Section VoteGate.
Context (db : DB) (id voter_id option generateId now : string).
Context (Hvoter : voter_id ≠ EmptyString) (Hoption : option ≠ EmptyString).

Let voteDto := VoteDto.mk (Some voter_id) (Some option).

Lemma vote_missing :
  getPoll id db = None →
  vote id voteDto generateId now db
  = (inl (NotFoundException "Poll not found"), db).
Proof using Hvoter Hoption.
  intros Hget. unfold vote, voteDto. cbn [VoteDto.voter_id VoteDto.option].
  destruct voter_id; [done|]. destruct option; [done|].
  run_db. rewrite query_in_1. unfold getPoll in Hget. by rewrite Hget.
Qed.

Context (poll : Doc Poll.t) (Hget : getPoll id db = Some poll).

Lemma vote_found_run :
  vote id voteDto generateId now db
  = if decide (Poll.status (data poll) ≠ "active")
    then (inl (BadRequestException "Poll is closed"), db)
    else if decide (option ∉ Poll.options (data poll))
    then (inl (BadRequestException
                 ("Invalid option. Valid options: "
                  +:+ JS.join ", " (Poll.options (data poll)))), db)
    else match head (findByPollAndVoter id voter_id db) with
         | Some existing =>
             (inl (BadRequestException
                     ("Already voted: " +:+ Vote.option (data existing))), db)
         | None =>
             let db' := appendVote id voter_id option generateId now db in
             let allVotes := take 1000 (findByPoll id db') in
             (inr (VoteResponse.mk true "Vote recorded successfully"
                     (id, voter_id, option) (length allVotes)
                     (voteCounts (Poll.options (data poll)) allVotes)), db')
         end.
Proof using Hvoter Hoption Hget.
  unfold vote, voteDto. cbn [VoteDto.voter_id VoteDto.option].
  destruct voter_id as [|c1 s1] eqn:Ev; [done|].
  destruct option as [|c2 s2] eqn:Eo; [done|].
  run_db. rewrite query_in_1. unfold getPoll in Hget. rewrite Hget.
  case_decide; [done|]. case_decide; [done|].
  run_db. rewrite query_in_1. unfold findByPollAndVoter.
  destruct (head (filter _ (votes db))); reflexivity.
Qed.

Lemma vote_closed :
  Poll.status (data poll) ≠ "active" →
  vote id voteDto generateId now db
  = (inl (BadRequestException "Poll is closed"), db).
Proof using Hvoter Hoption Hget.
  intros Hst. rewrite vote_found_run. by rewrite decide_True.
Qed.

Lemma vote_invalid_option :
  Poll.status (data poll) = "active" →
  option ∉ Poll.options (data poll) →
  vote id voteDto generateId now db
  = (inl (BadRequestException
            ("Invalid option. Valid options: "
             +:+ JS.join ", " (Poll.options (data poll)))), db).
Proof using Hvoter Hoption Hget.
  intros Hst Hopt. rewrite vote_found_run.
  rewrite decide_False by (intros ?; contradiction).
  by rewrite decide_True.
Qed.

Lemma vote_already_voted existing :
  Poll.status (data poll) = "active" →
  option ∈ Poll.options (data poll) →
  head (findByPollAndVoter id voter_id db) = Some existing →
  vote id voteDto generateId now db
  = (inl (BadRequestException
            ("Already voted: " +:+ Vote.option (data existing))), db).
Proof using Hvoter Hoption Hget.
  intros Hst Hopt Hex. rewrite vote_found_run.
  rewrite decide_False by (intros ?; contradiction).
  rewrite decide_False by (intros ?; contradiction).
  by rewrite Hex.
Qed.

Lemma vote_accepted :
  Poll.status (data poll) = "active" →
  option ∈ Poll.options (data poll) →
  findByPollAndVoter id voter_id db = [] →
  let db' := appendVote id voter_id option generateId now db in
  let allVotes := take 1000 (findByPoll id db') in
  vote id voteDto generateId now db
  = (inr (VoteResponse.mk true "Vote recorded successfully"
            (id, voter_id, option) (length allVotes)
            (voteCounts (Poll.options (data poll)) allVotes)), db').
Proof using Hvoter Hoption Hget.
  intros Hst Hopt Hex. rewrite vote_found_run.
  rewrite decide_False by (intros ?; contradiction).
  rewrite decide_False by (intros ?; contradiction).
  by rewrite Hex.
Qed.

End VoteGate.

(** C2, as the code has it. Once the poll is found, [vote] checks in this
    order: a poll whose status is not "active" is refused with "Poll is
    closed"; otherwise an option the poll does not declare is refused with
    "Invalid option. Valid options: ..."; otherwise a voter with a vote on
    the poll is refused with "Already voted: " followed by the option of
    that vote; only otherwise is the vote record built and appended. All
    three refusals are a [BadRequestException] (status 400) and leave the
    store as it was. *)
Theorem vote_gate_order
    (db : DB) (id voter_id option generateId now : string) (poll : Doc Poll.t) :
  voter_id ≠ EmptyString → option ≠ EmptyString →
  getPoll id db = Some poll →
  let outcome := vote id (VoteDto.mk (Some voter_id) (Some option)) generateId now db in
  (Poll.status (data poll) ≠ "active" →
     outcome = (inl (BadRequestException "Poll is closed"), db))
  ∧ (Poll.status (data poll) = "active" →
     option ∉ Poll.options (data poll) →
     outcome = (inl (BadRequestException
                       ("Invalid option. Valid options: "
                        +:+ JS.join ", " (Poll.options (data poll)))), db))
  ∧ (Poll.status (data poll) = "active" →
     option ∈ Poll.options (data poll) →
     ∀ existing, head (findByPollAndVoter id voter_id db) = Some existing →
     outcome = (inl (BadRequestException
                       ("Already voted: " +:+ Vote.option (data existing))), db))
  ∧ (Poll.status (data poll) = "active" →
     option ∈ Poll.options (data poll) →
     findByPollAndVoter id voter_id db = [] →
     ∃ res, outcome = (inr res, appendVote id voter_id option generateId now db)
            ∧ VoteResponse.vote res = (id, voter_id, option)).
Proof.
  intros Hvoter Hoption Hget outcome. subst outcome. repeat split.
  - intros. by eapply vote_closed.
  - intros. by eapply vote_invalid_option.
  - intros. by eapply vote_already_voted.
  - intros Hst Hopt Hnone. eexists. split; [by eapply vote_accepted | done].
Qed.

Lemma vote_gate_order_witness :
  let outcome :=
    vote "p1" (VoteDto.mk (Some "u1") (Some "B")) "v3" "2024-01-01T00:00:03.000Z"
         db_scenario in
  (Poll.status (data poll_p1) ≠ "active" →
     outcome = (inl (BadRequestException "Poll is closed"), db_scenario))
  ∧ (Poll.status (data poll_p1) = "active" →
     "B" ∉ Poll.options (data poll_p1) →
     outcome = (inl (BadRequestException
                       ("Invalid option. Valid options: "
                        +:+ JS.join ", " (Poll.options (data poll_p1)))), db_scenario))
  ∧ (Poll.status (data poll_p1) = "active" →
     "B" ∈ Poll.options (data poll_p1) →
     ∀ existing, head (findByPollAndVoter "p1" "u1" db_scenario) = Some existing →
     outcome = (inl (BadRequestException
                       ("Already voted: " +:+ Vote.option (data existing))), db_scenario))
  ∧ (Poll.status (data poll_p1) = "active" →
     "B" ∈ Poll.options (data poll_p1) →
     findByPollAndVoter "p1" "u1" db_scenario = [] →
     ∃ res, outcome = (inr res, appendVote "p1" "u1" "B" "v3"
                                  "2024-01-01T00:00:03.000Z" db_scenario)
            ∧ VoteResponse.vote res = ("p1", "u1", "B")).
Proof.
  apply (vote_gate_order db_scenario "p1" "u1" "B" "v3"
           "2024-01-01T00:00:03.000Z" poll_p1); [done | done | reflexivity].
Defined.

(** C2 fails as stated: the refusal of a vote on the closed poll, and of a
    second vote of u1, is a [BadRequestException] as the refusal of an
    undeclared option is; neither is of the conflict kind. *)
Lemma vote_gate_conflict_fails :
  fst (vote "p1" (VoteDto.mk (Some "u3") (Some "A")) "v3"
         "2024-01-03T00:00:00.000Z" db_closed)
  = inl (BadRequestException "Poll is closed")
  ∧ fst (vote "p1" (VoteDto.mk (Some "u3") (Some "C")) "v3"
           "2024-01-03T00:00:00.000Z" db_scenario)
    = inl (BadRequestException "Invalid option. Valid options: A, B")
  ∧ fst (vote "p1" (VoteDto.mk (Some "u1") (Some "B")) "v3"
           "2024-01-03T00:00:00.000Z" db_scenario)
    = inl (BadRequestException "Already voted: A")
  ∧ ¬ (∃ e, fst (vote "p1" (VoteDto.mk (Some "u3") (Some "A")) "v3"
                   "2024-01-03T00:00:00.000Z" db_closed) = inl e
            ∧ errorKind e = ConflictError)
  ∧ ¬ (∃ e, fst (vote "p1" (VoteDto.mk (Some "u1") (Some "B")) "v3"
                   "2024-01-03T00:00:00.000Z" db_scenario) = inl e
            ∧ errorKind e = ConflictError).
Proof.
  repeat apply conj; try reflexivity;
    intros (e & He & Hkind); vm_compute in He;
    injection He as <-; discriminate Hkind.
Qed.

(** ** One vote per voter *)

Lemma findByPollAndVoter_appendVote poll_id voter_id id voter option generateId now db :
  findByPollAndVoter poll_id voter_id (appendVote id voter option generateId now db)
  = findByPollAndVoter poll_id voter_id db
    ++ (if decide (id = poll_id ∧ voter = voter_id)
        then [mkDoc (next_id db) (Vote.mk generateId id voter option now)]
        else []).
Proof.
  unfold findByPollAndVoter, appendVote. cbn [votes].
  rewrite filter_app. reflexivity.
Qed.

Lemma oneVotePerVoter_appendVote id voter option generateId now db :
  oneVotePerVoter db →
  findByPollAndVoter id voter db = [] →
  oneVotePerVoter (appendVote id voter option generateId now db).
Proof.
  intros Hinv Hnone poll_id voter_id.
  rewrite findByPollAndVoter_appendVote, length_app.
  case_decide as Heq.
  - destruct Heq as [-> ->]. by rewrite Hnone.
  - specialize (Hinv poll_id voter_id). simpl. lia.
Qed.

(** A request either leaves the store as it was, or appends the vote of a
    voter who had none on that poll. *)
Lemma vote_store id voteDto generateId now db :
  snd (vote id voteDto generateId now db) = db
  ∨ ∃ voter option,
      findByPollAndVoter id voter db = []
      ∧ snd (vote id voteDto generateId now db)
        = appendVote id voter option generateId now db.
Proof.
  destruct voteDto as [[voter|] [option|]]; try (by left).
  - destruct (decide (voter = EmptyString)) as [->|Hvoter]; [by left|].
    destruct (decide (option = EmptyString)) as [->|Hoption]; [left; by destruct voter|].
    destruct (getPoll id db) as [poll|] eqn:Hget.
    + rewrite (vote_found_run db id voter option generateId now Hvoter Hoption poll Hget).
      case_decide; [by left|]. case_decide; [by left|].
      destruct (head (findByPollAndVoter id voter db)) eqn:Hhead; [by left|].
      right. exists voter, option. split; [|done].
      by apply head_None.
    + left. by rewrite vote_missing.
  - left. by destruct voter.
Qed.

Lemma vote_preserves_oneVotePerVoter id voteDto generateId now db :
  oneVotePerVoter db → oneVotePerVoter (snd (vote id voteDto generateId now db)).
Proof.
  intros Hinv.
  destruct (vote_store id voteDto generateId now db)
    as [-> | (voter & option & Hnone & ->)]; [done|].
  by apply oneVotePerVoter_appendVote.
Qed.

Lemma voteAll_preserves_oneVotePerVoter attempts db :
  oneVotePerVoter db → oneVotePerVoter (voteAll attempts db).
Proof.
  revert db. induction attempts as [|a attempts IH]; intros db Hinv; [done|].
  apply IH. by apply vote_preserves_oneVotePerVoter.
Qed.

(** A voter who has a vote on the poll is refused, and nothing is stored. *)
Lemma vote_duplicate_refused id voter option generateId now db :
  findByPollAndVoter id voter db ≠ [] →
  ∃ e, vote id (VoteDto.mk (Some voter) option) generateId now db = (inl e, db).
Proof.
  intros Hsome.
  destruct (decide (voter = EmptyString)) as [->|Hvoter]; [by eexists|].
  destruct option as [option|]; [|destruct voter; by eexists].
  destruct (decide (option = EmptyString)) as [->|Hoption]; [destruct voter; by eexists|].
  destruct (getPoll id db) as [poll|] eqn:Hget.
  - rewrite (vote_found_run db id voter option generateId now Hvoter Hoption poll Hget).
    case_decide; [by eexists|]. case_decide; [by eexists|].
    destruct (head (findByPollAndVoter id voter db)) eqn:Hhead; [by eexists|].
    by apply head_None in Hhead.
  - rewrite vote_missing by done. by eexists.
Qed.

(** C3. From a store in which no voter has two votes on one poll, requests
    to [vote] run one after the other leave a store with the same property:
    [findByPollAndVoter] has at most one element for every poll and voter,
    and a request of a voter who has a vote on the poll throws and leaves
    the store as it was. *)
Theorem one_vote_per_voter_preserved (db : DB) (attempts : list VoteAttempt.t) :
  oneVotePerVoter db →
  (∀ poll_id voter_id,
     length (findByPollAndVoter poll_id voter_id (voteAll attempts db)) ≤ 1)
  ∧ (∀ id voter option generateId now,
       findByPollAndVoter id voter (voteAll attempts db) ≠ [] →
       ∃ e, vote id (VoteDto.mk (Some voter) option) generateId now
                 (voteAll attempts db)
            = (inl e, voteAll attempts db)).
Proof.
  intros Hinv. split.
  - by apply voteAll_preserves_oneVotePerVoter.
  - intros. by apply vote_duplicate_refused.
Qed.

Lemma one_vote_per_voter_preserved_witness :
  (∀ poll_id voter_id,
     length (findByPollAndVoter poll_id voter_id
               (voteAll attempts_example db_created)) ≤ 1)
  ∧ (∀ id voter option generateId now,
       findByPollAndVoter id voter (voteAll attempts_example db_created) ≠ [] →
       ∃ e, vote id (VoteDto.mk (Some voter) option) generateId now
                 (voteAll attempts_example db_created)
            = (inl e, voteAll attempts_example db_created)).
Proof.
  apply (one_vote_per_voter_preserved db_created attempts_example).
  intros poll_id voter_id. vm_compute. lia.
Defined.

(** The second request of u1 stored nothing. *)
Example voteAll_example :
  Vote.voter_id ∘ data <$> votes (voteAll attempts_example db_created)
  = ["u1"; "u2"].
Proof. reflexivity. Qed.

(** ** Closing a poll *)

Lemma filter_fmap_preserved {A} (P : A → Prop) `{!∀ a, Decision (P a)}
    (f : A → A) (l : list A) :
  (∀ a, P (f a) ↔ P a) → filter P (f <$> l) = f <$> filter P l.
Proof.
  intros Hf. induction l as [|a l IH]; [done|].
  rewrite fmap_cons, !filter_cons.
  destruct (decide (P a)) as [Ha|Ha].
  - rewrite decide_True by (by apply Hf). by rewrite fmap_cons, IH.
  - rewrite decide_False by (by rewrite Hf). done.
Qed.

Lemma getPoll_update_in id i f db :
  (∀ p, Poll.id (f p) = Poll.id p) →
  getPoll id (mkDB (update_in i f (polls db)) (votes db) (next_id db))
  = (λ d, if decide (_id d = i) then mkDoc (_id d) (f (data d)) else d)
      <$> getPoll id db.
Proof.
  intros Hid. unfold getPoll, update_in. cbn [polls].
  rewrite filter_fmap_preserved.
  - by destruct (filter _ (polls db)).
  - intros d. case_decide; [|done]. cbn [data]. by rewrite Hid.
Qed.

Lemma close_missing id now db :
  getPoll id db = None →
  close id now db = (inl (NotFoundException "Poll not found"), db).
Proof.
  intros Hget. unfold close. run_db. rewrite query_in_1.
  unfold getPoll in Hget. by rewrite Hget.
Qed.

Lemma close_found id now db poll :
  getPoll id db = Some poll →
  close id now db
  = (inr (CloseResponse.mk true "Poll closed successfully" id),
     mkDB (update_in (_id poll) (Poll.set_closed now) (polls db))
          (votes db) (next_id db)).
Proof.
  intros Hget. unfold close. run_db. rewrite query_in_1.
  unfold getPoll in Hget. by rewrite Hget.
Qed.

(** C4, as the code has it. [close] throws [NotFoundException] when no poll
    has the id; otherwise, whether the poll is active or closed already, it
    succeeds: it sets the status to "closed" and [closed_at] to the current
    time, and leaves the other fields and the votes as they were. *)
Theorem close_sets_closed (db : DB) (id now : string) :
  (getPoll id db = None →
     close id now db = (inl (NotFoundException "Poll not found"), db))
  ∧ (∀ poll, getPoll id db = Some poll →
       ∃ db', close id now db
              = (inr (CloseResponse.mk true "Poll closed successfully" id), db')
         ∧ getPoll id db' = Some (mkDoc (_id poll) (Poll.set_closed now (data poll)))
         ∧ Poll.status (Poll.set_closed now (data poll)) = "closed"
         ∧ Poll.closed_at (Poll.set_closed now (data poll)) = Some now
         ∧ votes db' = votes db).
Proof.
  split; [apply close_missing|].
  intros poll Hget. eexists. split; [by apply close_found|].
  split; [|done].
  rewrite getPoll_update_in by done. rewrite Hget. cbn [fmap option_fmap option_map].
  by rewrite decide_True.
Qed.

(** C4 fails as stated: closing the closed poll of [db_closed] succeeds and
    moves [closed_at] to the time of the second call. *)
Lemma close_closed_poll_succeeds :
  Poll.status ∘ data <$> getPoll "p1" db_closed = Some "closed"
  ∧ fst (close "p1" "2024-01-03T00:00:00.000Z" db_closed)
    = inr (CloseResponse.mk true "Poll closed successfully" "p1")
  ∧ Poll.closed_at ∘ data
      <$> getPoll "p1" (snd (close "p1" "2024-01-03T00:00:00.000Z" db_closed))
    = Some (Some "2024-01-03T00:00:00.000Z").
Proof. repeat split. Qed.

(** ** Creating a poll *)

Section Create.
Context (db : DB) (generateId now : string).
Context (question : option string) (options : option (list string)).
Context (category expires_at : option string).

Let createPollDto := CreatePollDto.mk question options category expires_at.

Lemma create_question_required :
  question = None ∨ question = Some EmptyString →
  create createPollDto generateId now db
  = (inl (BadRequestException "Question is required"), db).
Proof. by intros [-> | ->]. Qed.

Lemma create_too_few q :
  question = Some q → q ≠ EmptyString →
  options = None ∨ (∃ os, options = Some os ∧ length os < 2) →
  create createPollDto generateId now db
  = (inl (BadRequestException "At least 2 options are required"), db).
Proof.
  intros -> Hq Hopts. unfold create, createPollDto.
  cbn [CreatePollDto.question CreatePollDto.options].
  destruct q; [done|].
  destruct Hopts as [-> | (os & -> & Hlen)]; [done|].
  by rewrite decide_True.
Qed.

Lemma create_too_many q os :
  question = Some q → q ≠ EmptyString →
  options = Some os → 10 < length os →
  create createPollDto generateId now db
  = (inl (BadRequestException "Maximum 10 options allowed"), db).
Proof.
  intros -> Hq -> Hlen. unfold create, createPollDto.
  cbn [CreatePollDto.question CreatePollDto.options].
  destruct q; [done|].
  rewrite decide_False by lia. by rewrite decide_True.
Qed.

Lemma create_accepted q os :
  question = Some q → q ≠ EmptyString →
  options = Some os → 2 ≤ length os ≤ 10 →
  create createPollDto generateId now db
  = (inr (CreateResponse.mk true "Poll created successfully"
            (Tallied.mk (createdPoll generateId now category expires_at q os) 0 (zeroCounts (JS.trim <$> os)))),
     mkDB (polls db ++ [mkDoc (next_id db) (createdPoll generateId now category expires_at q os)])
          (votes db) (S (next_id db))).
Proof.
  intros -> Hq -> Hlen. unfold create, createPollDto.
  cbn [CreatePollDto.question CreatePollDto.options
       CreatePollDto.category CreatePollDto.expires_at].
  destruct q; [done|].
  rewrite decide_False by lia. rewrite decide_False by lia.
  reflexivity.
Qed.

End Create.

(** *** [trim] *)

Lemma trimStart_split s :
  ∃ l, s = l +:+ JS.trimStart s ∧ blank l = true.
Proof.
  induction s as [|c s (l & IH & Hl)]; [by exists EmptyString|].
  cbn [JS.trimStart]. destruct (JS.isWhiteSpace c) eqn:Hc.
  - exists (String c l). split.
    + change (String c s = String c (l +:+ JS.trimStart s)). congruence.
    + cbn [blank]. by rewrite Hc, Hl.
  - by exists EmptyString.
Qed.

Lemma trimStart_first s c :
  firstChar (JS.trimStart s) = Some c → JS.isWhiteSpace c = false.
Proof.
  induction s as [|c' s IH]; [done|].
  cbn [JS.trimStart]. destruct (JS.isWhiteSpace c') eqn:Hc; [done|].
  cbn [firstChar]. congruence.
Qed.

Lemma trimEnd_split s :
  ∃ r, s = JS.trimEnd s +:+ r ∧ blank r = true.
Proof.
  induction s as [|c s (r & IH & Hr)]; [by exists EmptyString|].
  cbn [JS.trimEnd]. destruct (JS.trimEnd s) as [|c' t] eqn:Ht.
  - change (s = r) in IH. destruct (JS.isWhiteSpace c) eqn:Hc.
    + exists (String c r). split; [by rewrite IH|].
      cbn [blank]. by rewrite Hc, Hr.
    + exists r. split; [|done].
      change (String c s = String c r). congruence.
  - exists r. split; [|done].
    change (String c s = String c (String c' t +:+ r)). congruence.
Qed.

Lemma trimEnd_last s c :
  lastChar (JS.trimEnd s) = Some c → JS.isWhiteSpace c = false.
Proof.
  induction s as [|c' s IH]; [done|].
  cbn [JS.trimEnd]. destruct (JS.trimEnd s) as [|c'' t] eqn:Ht.
  - destruct (JS.isWhiteSpace c') eqn:Hc; [done|]. cbn. congruence.
  - intros H. apply IH. by destruct t.
Qed.

Lemma trimEnd_first s c :
  firstChar (JS.trimEnd s) = Some c → firstChar s = Some c.
Proof.
  destruct s as [|c' s]; [done|]. cbn [JS.trimEnd].
  destruct (JS.trimEnd s); [|done].
  by destruct (JS.isWhiteSpace c').
Qed.

(** [trim] takes white space away at both ends, and nothing else. *)
Lemma trim_trimmed s : trimmed (JS.trim s).
Proof.
  split; intros c Hc.
  - apply (trimStart_first s). by apply trimEnd_first.
  - by apply (trimEnd_last (JS.trimStart s)).
Qed.

Lemma trim_split s :
  ∃ l r, s = l +:+ JS.trim s +:+ r ∧ blank l = true ∧ blank r = true.
Proof.
  destruct (trimStart_split s) as (l & Hs & Hl).
  destruct (trimEnd_split (JS.trimStart s)) as (r & Ht & Hr).
  exists l, r. unfold JS.trim. by rewrite <- Ht.
Qed.

(** C5, as the code has it. [create] throws [BadRequestException] when the
    question is absent, not a string or empty, and when [options] is absent,
    not an array, or has fewer than 2 or more than 10 entries. Any other
    request is accepted, duplicates and blank options included: the stored
    poll has the question and each option trimmed of white space, the status
    "active", and the category "General" when none was given. *)
Theorem create_validates_and_trims
    (db : DB) (generateId now : string)
    (question : option string) (options : option (list string))
    (category expires_at : option string) :
  let outcome :=
    create (CreatePollDto.mk question options category expires_at) generateId now db in
  (question = None ∨ question = Some EmptyString →
     outcome = (inl (BadRequestException "Question is required"), db))
  ∧ (∀ q, question = Some q → q ≠ EmptyString →
       options = None ∨ (∃ os, options = Some os ∧ length os < 2) →
       outcome = (inl (BadRequestException "At least 2 options are required"), db))
  ∧ (∀ q os, question = Some q → q ≠ EmptyString → options = Some os → 10 < length os →
       outcome = (inl (BadRequestException "Maximum 10 options allowed"), db))
  ∧ (∀ q os, question = Some q → q ≠ EmptyString → options = Some os →
       2 ≤ length os ≤ 10 →
       ∃ poll,
         outcome
         = (inr (CreateResponse.mk true "Poll created successfully"
                   (Tallied.mk poll 0 (zeroCounts (Poll.options poll)))),
            mkDB (polls db ++ [mkDoc (next_id db) poll]) (votes db) (S (next_id db)))
         ∧ Poll.question poll = JS.trim q ∧ trimmed (Poll.question poll)
         ∧ Poll.options poll = JS.trim <$> os
         ∧ Forall trimmed (Poll.options poll)
         ∧ Poll.status poll = "active"
         ∧ (category = None → Poll.category poll = Some "General")
         ∧ (∀ c, category = Some c →
              Poll.category poll
              = Some (if decide (JS.trim c = EmptyString) then "General" else JS.trim c))).
Proof.
  intros outcome. subst outcome. repeat split.
  - apply create_question_required.
  - intros. by eapply create_too_few.
  - intros. by eapply create_too_many.
  - intros q os Hq Hne Hos Hlen.
    exists (createdPoll generateId now category expires_at q os).
    split; [by apply create_accepted|].
    cbn [createdPoll Poll.question Poll.options Poll.status Poll.category].
    repeat split; try done.
    + apply trim_trimmed.
    + apply trim_trimmed.
    + apply Forall_fmap, Forall_true. intros o. apply trim_trimmed.
    + by intros ->.
    + by intros c ->.
Qed.

(** C5 fails as stated: two options that are the same once trimmed, and an
    option that is blank, are accepted. *)
Lemma create_accepts_duplicates :
  (Poll.options ∘ data
     <$> polls (snd (create (CreatePollDto.mk (Some "Pick one") (Some [" A"; "A "])
                                None None)
                       "p1" "2024-01-01T00:00:00.000Z" NexaDB.empty))
   = [["A"; "A"]])
  ∧ (Poll.options ∘ data
       <$> polls (snd (create (CreatePollDto.mk (Some "Pick one") (Some ["  "; "B"])
                                  None None)
                         "p1" "2024-01-01T00:00:00.000Z" NexaDB.empty))
     = [[EmptyString; "B"]])
  ∧ ∃ res, fst (create (CreatePollDto.mk (Some "Pick one") (Some [" A"; "A "])
                          None None)
                  "p1" "2024-01-01T00:00:00.000Z" NexaDB.empty) = inr res.
Proof. repeat split. by eexists. Qed.

(** ** Deleting a poll *)

Lemma filter_ext_in {A} (P Q : A → Prop)
    `{!∀ a, Decision (P a), !∀ a, Decision (Q a)} (l : list A) :
  (∀ a, a ∈ l → P a ↔ Q a) → filter P l = filter Q l.
Proof.
  induction l as [|a l IH]; intros Hpq; [done|].
  rewrite !filter_cons.
  rewrite IH by (intros b Hb; apply Hpq; by right).
  destruct (decide (P a)) as [Ha|Ha].
  - rewrite decide_True; [done|]. apply Hpq; [left | done].
  - rewrite decide_False; [done|]. intros Hq. apply Ha, Hpq; [left | done].
Qed.

Lemma filter_none {A} (P : A → Prop) `{!∀ a, Decision (P a)} (l : list A) :
  (∀ a, a ∈ l → ¬ P a) → filter P l = [].
Proof.
  induction l as [|a l IH]; intros Hnone; [done|].
  rewrite filter_cons_False by (apply Hnone; left).
  apply IH. intros b Hb. apply Hnone. by right.
Qed.

Section Deletes.
Context {A : Type}.
Implicit Types (docs dels : list (Doc A)) (P : A → Prop).

(** Deleting documents one by one by [_id] keeps the documents whose [_id]
    was not asked for. *)
Lemma foldl_delete_in dels docs :
  foldl (λ l d, delete_in (_id d) l) docs dels
  = filter (λ d, _id d ∉ _id <$> dels) docs.
Proof.
  revert docs. induction dels as [|x dels IH]; intros docs; cbn [foldl].
  - symmetry. apply filter_all. intros d _. rewrite fmap_nil. apply not_elem_of_nil.
  - rewrite IH. unfold delete_in. rewrite list_filter_filter.
    apply list_filter_iff. intros d. rewrite fmap_cons, not_elem_of_cons. tauto.
Qed.

(** With distinct [_id]s, deleting the first [n] documents leaves the rest. *)
Lemma filter_not_taken n docs :
  NoDup (_id <$> docs) →
  filter (λ d, _id d ∉ _id <$> take n docs) docs = drop n docs.
Proof.
  revert n. induction docs as [|x docs IH]; intros n Hnd.
  - by rewrite take_nil, drop_nil.
  - destruct n as [|n].
    + rewrite take_0, drop_0. apply filter_all.
      intros d _. rewrite fmap_nil. apply not_elem_of_nil.
    + rewrite fmap_cons in Hnd. apply NoDup_cons in Hnd as [Hx Hnd].
      cbn [take drop]. rewrite filter_cons_False.
      2: { rewrite fmap_cons. intros Hn. apply Hn. left. }
      rewrite <- (IH n Hnd). apply filter_ext_in.
      intros d Hd. rewrite fmap_cons, not_elem_of_cons.
      split; [tauto|]. intros Hn. split; [|done].
      intros Heq. apply Hx. rewrite <- Heq. by apply list_elem_of_fmap_2.
Qed.

Lemma NoDup_id_filter (Q : Doc A → Prop) `{!∀ d, Decision (Q d)} docs :
  NoDup (_id <$> docs) → NoDup (_id <$> filter Q docs).
Proof.
  intros Hnd. eapply sublist_NoDup; [exact Hnd|].
  apply fmap_sublist, sublist_filter.
Qed.

(** A document is known by its [_id]. *)
Lemma NoDup_id_inj docs d1 d2 :
  NoDup (_id <$> docs) → d1 ∈ docs → d2 ∈ docs → _id d1 = _id d2 → d1 = d2.
Proof.
  intros Hnd H1 H2 Heq.
  apply list_elem_of_lookup in H1 as [i Hi], H2 as [j Hj].
  assert (i = j) as ->; [|congruence].
  eapply NoDup_lookup; [exact Hnd | |];
    rewrite list_lookup_fmap; [by rewrite Hi | by rewrite Hj, Heq].
Qed.

End Deletes.

Lemma NoDup_findByPoll id db :
  NoDup (_id <$> votes db) → NoDup (_id <$> findByPoll id db).
Proof.
  intros Hnd. unfold findByPoll.
  by apply NoDup_id_filter.
Qed.

Lemma for_of_delete_vote (dels : list (Doc Vote.t)) db :
  for_of dels (λ vote, delete_vote (_id vote)) db
  = (inr (), mkDB (polls db)
                  (foldl (λ l d, delete_in (_id d) l) (votes db) dels)
                  (next_id db)).
Proof.
  revert db. induction dels as [|d dels IH]; intros db; cbn [for_of foldl].
  - by destruct db.
  - unfold bind, delete_vote at 1. by rewrite IH.
Qed.

Lemma remove_missing id db :
  getPoll id db = None →
  remove id db = (inl (NotFoundException "Poll not found"), db).
Proof.
  intros Hget. unfold remove. run_db. rewrite query_in_1.
  unfold getPoll in Hget. by rewrite Hget.
Qed.

Lemma remove_found id db poll :
  getPoll id db = Some poll →
  remove id db
  = (inr (RemoveResponse.mk true "Poll deleted successfully" id
            (length (take 1000 (findByPoll id db)))),
     mkDB (delete_in (_id poll) (polls db))
          (filter (λ d, _id d ∉ _id <$> take 1000 (findByPoll id db)) (votes db))
          (next_id db)).
Proof.
  intros Hget. unfold remove. run_db. rewrite query_in_1.
  unfold getPoll in Hget. rewrite Hget.
  rewrite for_of_delete_vote, foldl_delete_in. reflexivity.
Qed.

(** The votes of the poll that are left behind: those after the first 1000,
    when every stored vote has an [_id] of its own. *)
Lemma remove_leaves id db :
  NoDup (_id <$> votes db) →
  filter (λ d, Vote.poll_id (data d) = id)
    (filter (λ d, _id d ∉ _id <$> take 1000 (findByPoll id db)) (votes db))
  = drop 1000 (findByPoll id db).
Proof.
  intros Hnd. rewrite list_filter_filter.
  rewrite <- (filter_not_taken 1000 (findByPoll id db))
    by by apply NoDup_findByPoll.
  etransitivity; [|symmetry; apply (list_filter_filter _ _ (votes db))].
  apply list_filter_iff. intros d. tauto.
Qed.

(** The votes of the other polls stay. *)
Lemma remove_keeps_others id id' db :
  NoDup (_id <$> votes db) → id' ≠ id →
  filter (λ d, Vote.poll_id (data d) = id')
    (filter (λ d, _id d ∉ _id <$> take 1000 (findByPoll id db)) (votes db))
  = findByPoll id' db.
Proof.
  intros Hnd Hne. rewrite list_filter_filter. unfold findByPoll at 1.
  apply filter_ext_in. intros d Hd.
  split; [tauto|]. intros Hid'. split; [done|].
  intros (d' & Heq & Hd')%list_elem_of_fmap.
  apply subseteq_take in Hd'. apply list_elem_of_filter in Hd' as [Hp Hin].
  assert (d = d') as <- by by eapply NoDup_id_inj. congruence.
Qed.

(** The votes of [db_votes] have the [_id]s 1 to [n]. *)
Lemma db_votes_NoDup n : NoDup (_id <$> votes (db_votes n)).
Proof.
  unfold db_votes. cbn [votes]. rewrite <- list_fmap_compose.
  change (NoDup (S <$> seq 0 n)). rewrite fmap_S_seq. apply NoDup_seq.
Qed.

Lemma findByPoll_removed id db i :
  NoDup (_id <$> votes db) →
  findByPoll id
    (mkDB (delete_in i (polls db))
          (filter (λ d, _id d ∉ _id <$> take 1000 (findByPoll id db)) (votes db))
          (next_id db))
  = drop 1000 (findByPoll id db).
Proof. intros Hnd. unfold findByPoll at 1. cbn [votes]. by apply remove_leaves. Qed.

Lemma removalReport_found id db poll :
  NoDup (_id <$> votes db) →
  getPoll id db = Some poll →
  removalReport id db
  = (Some (1000 `min` length (findByPoll id db)), length (findByPoll id db) - 1000).
Proof.
  intros Hnd Hget. unfold removalReport.
  rewrite (remove_found id db poll Hget). cbn [RemoveResponse.votes_removed].
  by rewrite length_take, findByPoll_removed, length_drop.
Qed.

(** C6, as the code has it. On an id no poll has, [remove] throws
    [NotFoundException] and the store is as it was. On a poll with at most
    1000 stored votes (the limit of the vote query) it deletes every vote of
    the poll and then the poll record, and reports the number of votes
    deleted; afterwards no vote of the poll is stored. *)
Theorem remove_deletes_votes (db : DB) (id : string) :
  length (findByPoll id db) ≤ 1000 →
  (getPoll id db = None →
     remove id db = (inl (NotFoundException "Poll not found"), db))
  ∧ (∀ poll, getPoll id db = Some poll →
       ∃ db', remove id db
              = (inr (RemoveResponse.mk true "Poll deleted successfully" id
                        (length (findByPoll id db))), db')
         ∧ findByPoll id db' = []
         ∧ poll ∉ polls db').
Proof.
  intros Hlimit. split; [apply remove_missing|].
  intros poll Hget. eexists. split; [|split].
  - rewrite (remove_found id db poll Hget). by rewrite take_ge.
  - unfold findByPoll at 1. cbn [votes]. rewrite list_filter_filter.
    apply filter_none. intros d Hd [Hp Hn]. apply Hn.
    apply list_elem_of_fmap_2. by apply list_elem_of_filter.
  - cbn [polls]. unfold delete_in. intros [Hn _]%list_elem_of_filter. by apply Hn.
Qed.

Lemma remove_deletes_votes_witness :
  (getPoll "p1" db_scenario = None →
     remove "p1" db_scenario = (inl (NotFoundException "Poll not found"), db_scenario))
  ∧ (∀ poll, getPoll "p1" db_scenario = Some poll →
       ∃ db', remove "p1" db_scenario
              = (inr (RemoveResponse.mk true "Poll deleted successfully" "p1"
                        (length (findByPoll "p1" db_scenario))), db')
         ∧ findByPoll "p1" db' = []
         ∧ poll ∉ polls db').
Proof.
  apply (remove_deletes_votes db_scenario "p1"). vm_compute. lia.
Defined.

(** C6 fails as stated: of the 1001 votes of the poll, [remove] deletes
    1000 and leaves one in the store. *)
Lemma remove_leaves_a_vote :
  removalReport "p1" (db_votes 1001) = (Some 1000, 1).
Proof.
  assert (length (findByPoll "p1" (db_votes 1001)) = 1001) as Hstored
    by (vm_compute; reflexivity).
  rewrite (removalReport_found "p1" (db_votes 1001) poll_p1);
    [| apply db_votes_NoDup | reflexivity].
  rewrite Hstored. reflexivity.
Qed.

(** ** The limit of the vote queries *)

(** C10. [findAll], [findOne], [vote] and [remove] read the votes of a poll
    with a limit of 1000: the [total_votes] they report is the number of
    stored votes cut at 1000, the tally counts the first 1000 stored votes
    only, and [remove] deletes the first 1000 votes of the poll and leaves
    the others in the store. *)
Theorem vote_queries_limited (db : DB) (id : string) (poll : Doc Poll.t) :
  NoDup (_id <$> votes db) →
  getPoll id db = Some poll →
  (∃ r, findOne id db = (inr (FindOneResponse.mk true r), db)
        ∧ Results.total_votes r = 1000 `min` length (findByPoll id db)
        ∧ Results.vote_counts r
          = voteCounts (Poll.options (data poll)) (take 1000 (findByPoll id db)))
  ∧ (∃ res, findAll db = (inr res, db)
        ∧ ∀ t, t ∈ FindAllResponse.polls res →
            let stored := findByPoll (Poll.id (data (Tallied.poll t))) db in
            Tallied.total_votes t = 1000 `min` length stored
            ∧ Tallied.vote_counts t
              = voteCounts (Poll.options (data (Tallied.poll t))) (take 1000 stored))
  ∧ (∀ voteDto generateId now res db',
        vote id voteDto generateId now db = (inr res, db') →
        VoteResponse.total_votes res = 1000 `min` length (findByPoll id db')
        ∧ VoteResponse.vote_counts res
          = voteCounts (Poll.options (data poll)) (take 1000 (findByPoll id db')))
  ∧ (∃ db', remove id db
            = (inr (RemoveResponse.mk true "Poll deleted successfully" id
                      (1000 `min` length (findByPoll id db))), db')
        ∧ findByPoll id db' = drop 1000 (findByPoll id db)
        ∧ length (findByPoll id db') = length (findByPoll id db) - 1000).
Proof.
  intros Hnd Hget. repeat apply conj.
  - eexists. split; [by apply findOne_found|].
    unfold resultsEntry. cbn [Results.total_votes Results.vote_counts].
    rewrite (getPoll_id _ _ _ Hget). split; [apply length_take | done].
  - eexists. split; [apply findAll_run|].
    intros t (q & -> & _)%list_elem_of_fmap.
    unfold tallyEntry. cbn [Tallied.total_votes Tallied.vote_counts Tallied.poll].
    split; [apply length_take | done].
  - intros [[voter|] [option|]] generateId now res db' Hvote;
      try (by destruct voter); try done.
    destruct (decide (voter = EmptyString)) as [->|Hvoter]; [done|].
    destruct (decide (option = EmptyString)) as [->|Hoption]; [by destruct voter|].
    rewrite (vote_found_run db id voter option generateId now Hvoter Hoption poll Hget)
      in Hvote.
    repeat case_decide; try done.
    destruct (head (findByPollAndVoter id voter db)); [done|].
    injection Hvote as <- <-. cbn [VoteResponse.total_votes VoteResponse.vote_counts].
    split; [apply length_take | done].
  - eexists. split; [|split].
    + rewrite (remove_found id db poll Hget). by rewrite length_take.
    + unfold findByPoll at 1. cbn [votes]. by apply remove_leaves.
    + unfold findByPoll at 1. cbn [votes]. rewrite remove_leaves by done.
      apply length_drop.
Qed.

Lemma vote_queries_limited_witness :
  (∃ r, findOne "p1" db_scenario = (inr (FindOneResponse.mk true r), db_scenario)
        ∧ Results.total_votes r = 1000 `min` length (findByPoll "p1" db_scenario)
        ∧ Results.vote_counts r
          = voteCounts (Poll.options (data poll_p1))
              (take 1000 (findByPoll "p1" db_scenario)))
  ∧ (∃ res, findAll db_scenario = (inr res, db_scenario)
        ∧ ∀ t, t ∈ FindAllResponse.polls res →
            let stored := findByPoll (Poll.id (data (Tallied.poll t))) db_scenario in
            Tallied.total_votes t = 1000 `min` length stored
            ∧ Tallied.vote_counts t
              = voteCounts (Poll.options (data (Tallied.poll t))) (take 1000 stored))
  ∧ (∀ voteDto generateId now res db',
        vote "p1" voteDto generateId now db_scenario = (inr res, db') →
        VoteResponse.total_votes res = 1000 `min` length (findByPoll "p1" db')
        ∧ VoteResponse.vote_counts res
          = voteCounts (Poll.options (data poll_p1)) (take 1000 (findByPoll "p1" db')))
  ∧ (∃ db', remove "p1" db_scenario
            = (inr (RemoveResponse.mk true "Poll deleted successfully" "p1"
                      (1000 `min` length (findByPoll "p1" db_scenario))), db')
        ∧ findByPoll "p1" db' = drop 1000 (findByPoll "p1" db_scenario)
        ∧ length (findByPoll "p1" db')
          = length (findByPoll "p1" db_scenario) - 1000).
Proof.
  apply (vote_queries_limited db_scenario "p1" poll_p1); [compute_done | reflexivity].
Defined.

(** With 1001 stored votes, the vote of a new voter is answered with a
    total of 1000. *)
Example vote_total_limited :
  match fst (vote "p1" (VoteDto.mk (Some "zzzz") (Some "B")) "v"
                  "2024-01-02T00:00:00.000Z" (db_votes 1001)) with
  | inr res => Some (VoteResponse.total_votes res)
  | inl _ => None
  end = Some 1000.
Proof. vm_compute. reflexivity. Qed.

(** ** Categories *)

Section JsSet.
Implicit Types (s l : list string) (x : string).

Lemma Set_add_elem_of s x y : y ∈ JS.Set_add s x ↔ y ∈ s ∨ y = x.
Proof.
  unfold JS.Set_add. case_decide as Hx.
  - split; [by left|]. by intros [?| ->].
  - rewrite elem_of_app, list_elem_of_singleton. tauto.
Qed.

Lemma Set_add_NoDup s x : NoDup s → NoDup (JS.Set_add s x).
Proof.
  intros Hs. unfold JS.Set_add. case_decide as Hx; [done|].
  apply NoDup_app. split; [done|]. split; [|apply NoDup_singleton].
  intros y Hy ->%list_elem_of_singleton. done.
Qed.

Lemma foldl_Set_add_elem_of s l y :
  y ∈ foldl JS.Set_add s l ↔ y ∈ s ∨ y ∈ l.
Proof.
  revert s. induction l as [|x l IH]; intros s; cbn [foldl].
  - split; [by left|]. intros [?|?%elem_of_nil]; done.
  - rewrite IH, Set_add_elem_of, elem_of_cons. tauto.
Qed.

Lemma foldl_Set_add_NoDup s l : NoDup s → NoDup (foldl JS.Set_add s l).
Proof.
  revert s. induction l as [|x l IH]; intros s Hs; cbn [foldl]; [done|].
  by apply IH, Set_add_NoDup.
Qed.

Lemma foldl_Set_add_prefix s l : s `prefix_of` foldl JS.Set_add s l.
Proof.
  revert s. induction l as [|x l IH]; intros s; cbn [foldl]; [done|].
  etransitivity; [|apply IH]. unfold JS.Set_add.
  case_decide; [done | by apply prefix_app_r].
Qed.

Lemma foldl_Set_add_app s l1 l2 :
  foldl JS.Set_add s (l1 ++ l2) = foldl JS.Set_add (foldl JS.Set_add s l1) l2.
Proof. apply foldl_app. Qed.

Lemma foldl_Set_add_id s l : NoDup (s ++ l) → foldl JS.Set_add s l = s ++ l.
Proof.
  revert s. induction l as [|x l IH]; intros s Hnd; cbn [foldl].
  - by rewrite app_nil_r.
  - unfold JS.Set_add at 2. rewrite decide_False.
    + rewrite IH; rewrite <- app_assoc; done.
    + apply NoDup_app in Hnd as (_ & Hdisj & _). intros Hx.
      apply (Hdisj x Hx). left.
Qed.

Lemma Set_from_elem_of l y : y ∈ JS.Set_from l ↔ y ∈ l.
Proof.
  unfold JS.Set_from. rewrite foldl_Set_add_elem_of.
  split; [by intros [?%elem_of_nil|?] | by right].
Qed.

Lemma Set_from_NoDup l : NoDup (JS.Set_from l).
Proof. apply foldl_Set_add_NoDup, NoDup_nil_2. Qed.

End JsSet.

Lemma DEFAULT_CATEGORIES_NoDup : NoDup DEFAULT_CATEGORIES.
Proof. compute_done. Qed.

(** The merged set starts with the default categories, in their order. *)
Lemma allCategories_prefix l :
  DEFAULT_CATEGORIES `prefix_of` JS.Set_from (DEFAULT_CATEGORIES ++ l).
Proof.
  unfold JS.Set_from. rewrite foldl_Set_add_app.
  rewrite (foldl_Set_add_id [] DEFAULT_CATEGORIES) by apply DEFAULT_CATEGORIES_NoDup.
  apply foldl_Set_add_prefix.
Qed.

(** One round of the loop over the polls, on a counter that is a number. *)
Lemma countCategory_lookup_ne (m : gmap string JS.primitive) p name :
  categoryOf p ≠ name → countCategory m p !! name = m !! name.
Proof. intros Hne. unfold countCategory. cbv zeta. by rewrite set_lookup_ne. Qed.

Lemma countCategory_lookup_Num (m : gmap string JS.primitive) p n :
  m !! categoryOf p = Some (JS.Num n) →
  countCategory m p !! categoryOf p = Some (JS.Num (S n)).
Proof.
  intros Hm. unfold countCategory. cbv zeta.
  rewrite (set_lookup_own _ _ _ (JS.Num n)) by done.
  rewrite (get_Own _ _ _ Hm). by destruct n.
Qed.

Lemma countCategory_lookup_proto (m : gmap string JS.primitive) p :
  m !! "__proto__" = None → countCategory m p !! "__proto__" = None.
Proof.
  intros Hm. unfold countCategory. cbv zeta.
  rewrite set_lookup, decide_False; [done|].
  intros [-> [?|[? ?]]]; [done | congruence].
Qed.

Lemma foldl_countCategory_Num (m : gmap string JS.primitive) polls name n :
  m !! name = Some (JS.Num n) →
  foldl countCategory m polls !! name
  = Some (JS.Num (n + length (pollsIn name polls))).
Proof.
  revert m n. induction polls as [|p polls IH]; intros m n Hm; cbn [foldl].
  - rewrite Hm. cbn. do 2 f_equal. lia.
  - unfold pollsIn. rewrite filter_cons. fold (pollsIn name polls).
    case_decide as Hp.
    + rewrite (IH _ (S n)).
      * cbn [length]. do 2 f_equal. lia.
      * subst name. by apply countCategory_lookup_Num.
    + rewrite (IH _ n); [done|]. by rewrite countCategory_lookup_ne.
Qed.

Lemma foldl_countCategory_proto (m : gmap string JS.primitive) polls :
  m !! "__proto__" = None → foldl countCategory m polls !! "__proto__" = None.
Proof.
  revert m. induction polls as [|p polls IH]; intros m Hm; cbn [foldl]; [done|].
  apply IH. by apply countCategory_lookup_proto.
Qed.

(** What [categorySummary] answers with. *)
Lemma categorySummary_run polls :
  categorySummary polls
  = CategoriesResponse.mk true
      ((λ name, Category.mk name (categoryCount polls name))
         <$> JS.Set_from (DEFAULT_CATEGORIES ++ JS.Set_from (categoryOf <$> polls)))
      (length polls).
Proof.
  unfold categorySummary. cbv zeta. f_equal.
  apply list_fmap_ext. intros i name Hname%list_elem_of_lookup_2.
  f_equal. unfold categoryCount.
  set (all := JS.Set_from (DEFAULT_CATEGORIES ++ JS.Set_from (categoryOf <$> polls))) in *.
  pose proof (literal_lookup (λ _, JS.Num 0) all) as Hinit. cbv beta in Hinit.
  case_decide as Hproto.
  - subst name. rewrite get_None; [done|].
    apply foldl_countCategory_proto. rewrite Hinit.
    rewrite decide_False; [done | by intros [_ ?]].
  - apply get_Own. rewrite (foldl_countCategory_Num _ _ _ 0); [done|].
    rewrite Hinit. by rewrite decide_True.
Qed.

Lemma getCategories_run db :
  getCategories db = (inr (categorySummary (take 1000 (polls db))), db).
Proof. unfold getCategories. run_db. by rewrite query_in_True. Qed.

Lemma pollsIn_length_pos name polls p :
  p ∈ polls → categoryOf p = name → 1 ≤ length (pollsIn name polls).
Proof.
  intros Hp Hname.
  assert (p ∈ pollsIn name polls) as Hin by by apply list_elem_of_filter.
  destruct (pollsIn name polls); [by apply elem_of_nil in Hin | cbn; lia].
Qed.

(** C9, as the code has it. [getCategories] reads at most 1000 polls. It
    answers with the default categories followed by the other categories of
    the polls it read, each once, each, the name __proto__ aside, with the
    number of polls read that fall in it (a poll without category falls in
    "General"); a category that is not a default one is listed with a count
    of at least 1; [total_polls] is the number of polls read. On an empty
    collection the answer is the default list with counts 0 and
    [total_polls] 0. *)
Theorem categories_merge_defaults (db : DB) :
  ∃ res, getCategories db = (inr res, db)
  ∧ let observed := take 1000 (polls db) in
    let names := Category.name <$> CategoriesResponse.categories res in
    (∀ name, name ∈ names ↔
        name ∈ DEFAULT_CATEGORIES ∨ ∃ p, p ∈ observed ∧ categoryOf p = name)
    ∧ NoDup names
    ∧ DEFAULT_CATEGORIES `prefix_of` names
    ∧ (∀ p, Poll.category (data p) = None → categoryOf p = "General")
    ∧ (∀ c, c ∈ CategoriesResponse.categories res →
         Category.name c ≠ "__proto__" →
         Category.count c
         = JS.Own (JS.Num (length (pollsIn (Category.name c) observed))))
    ∧ (∀ c, c ∈ CategoriesResponse.categories res →
         Category.name c ∉ DEFAULT_CATEGORIES → Category.name c ≠ "__proto__" →
         ∃ n, Category.count c = JS.Own (JS.Num n) ∧ 1 ≤ n)
    ∧ CategoriesResponse.total_polls res = length observed
    ∧ (polls db = [] →
         CategoriesResponse.categories res
         = (λ name, Category.mk name (JS.Own (JS.Num 0))) <$> DEFAULT_CATEGORIES
         ∧ CategoriesResponse.total_polls res = 0).
Proof.
  eexists. split; [apply getCategories_run|].
  rewrite categorySummary_run.
  cbn [CategoriesResponse.categories CategoriesResponse.total_polls].
  set (observed := take 1000 (polls db)).
  set (all := JS.Set_from (DEFAULT_CATEGORIES ++ JS.Set_from (categoryOf <$> observed))).
  assert (Hnames : Category.name
                     <$> ((λ name, Category.mk name (categoryCount observed name))
                            <$> all) = all).
  { rewrite <- list_fmap_compose. apply list_fmap_id. }
  assert (Hall : ∀ name, name ∈ all ↔
            name ∈ DEFAULT_CATEGORIES ∨ ∃ p, p ∈ observed ∧ categoryOf p = name).
  { intros name. unfold all.
    rewrite Set_from_elem_of, elem_of_app, Set_from_elem_of, list_elem_of_fmap.
    split; (intros [?|(p & ? & ?)]; [by left | right; by exists p]). }
  cbv zeta. rewrite Hnames. repeat apply conj.
  - exact Hall.
  - apply Set_from_NoDup.
  - apply allCategories_prefix.
  - intros p Hp. unfold categoryOf. by rewrite Hp.
  - intros c (name & -> & _)%list_elem_of_fmap Hproto.
    cbn [Category.name Category.count] in *. unfold categoryCount.
    by rewrite decide_False.
  - intros c (name & -> & Hname)%list_elem_of_fmap Hdef Hproto.
    cbn [Category.name Category.count] in *. unfold categoryCount.
    rewrite decide_False by done. eexists. split; [done|].
    apply Hall in Hname as [?|(p & Hp & Hcat)]; [done|].
    by eapply pollsIn_length_pos.
  - done.
  - intros Hnil. subst all observed. rewrite Hnil. split; reflexivity.
Qed.

(** C9 fails as stated: of 1001 stored polls the last one, the only one in
    the category Science, is not read; Science is not listed and
    [total_polls] is 1000. *)
Lemma categories_miss_a_poll :
  length (polls (db_polls 1000)) = 1001
  ∧ categoryOf <$> last (polls (db_polls 1000)) = Some "Science"
  ∧ categoriesReport (db_polls 1000)
    = Some ([("General", Some 0); ("Technology", Some 0); ("Sports", Some 1000);
             ("Entertainment", Some 0); ("Politics", Some 0);
             ("Food & Drinks", Some 0); ("Travel", Some 0); ("Health", Some 0);
             ("Education", Some 0); ("Business", Some 0)],
            1000).
Proof. repeat split; vm_compute; reflexivity. Qed.

(** The answer on an empty store, and on the scenario of the
    specification. *)
Example categories_empty :
  categoriesReport NexaDB.empty
  = Some ((λ name, (name, Some 0)) <$> DEFAULT_CATEGORIES, 0).
Proof. reflexivity. Qed.

(** ** Percentages *)

(** Every declared option but __proto__ has a percentage, computed from
    what its counter reads as; no other name has one. *)
Lemma votePercentages_lookup options (counts : gmap string JS.primitive) total o :
  votePercentages options counts total !! o
  = if decide (o ∈ options ∧ o ≠ "__proto__")
    then Some (percentageOf (JS.toNumber (JS.get counts o)) total)
    else None.
Proof.
  unfold votePercentages.
  apply (literal_lookup (λ opt, percentageOf (JS.toNumber (JS.get counts opt)) total)).
Qed.

(** With no vote the quotient is not computed and the percentage is 0. *)
Lemma percentage_no_votes count : percentage count 0 = JS.of_nat 0.
Proof. reflexivity. Qed.

Lemma votePercentages_no_votes options (counts : gmap string JS.primitive) o :
  o ∈ options → o ≠ "__proto__" →
  votePercentages options counts 0 !! o = Some (JS.of_nat 0).
Proof.
  intros Ho Hne. rewrite votePercentages_lookup. by rewrite decide_True.
Qed.

(** The percentage of a declared option whose counter is a number. *)
Lemma votePercentages_counted options (counts : gmap string JS.primitive) total o n :
  o ∈ options → o ≠ "__proto__" → counts !! o = Some (JS.Num n) →
  votePercentages options counts total !! o = Some (percentage n total).
Proof.
  intros Ho Hne Hn. rewrite votePercentages_lookup, decide_True by done.
  by rewrite (get_Own _ _ _ Hn).
Qed.

(** A poll without stored votes: [findOne] gives every option 0 percent,
    the name __proto__ aside, under which it stores no percentage. *)
Theorem findOne_no_votes id db poll :
  getPoll id db = Some poll → findByPoll id db = [] →
  ∃ r, findOne id db = (inr (FindOneResponse.mk true r), db)
       ∧ Results.total_votes r = 0
       ∧ ∀ o, o ∈ Poll.options (data poll) → o ≠ "__proto__" →
           Results.vote_percentages r !! o = Some (JS.of_nat 0).
Proof.
  intros Hget Hnone. eexists. split; [by apply findOne_found|].
  unfold resultsEntry. cbn [Results.total_votes Results.vote_percentages].
  rewrite (getPoll_id _ _ _ Hget), Hnone, take_nil. split; [done|].
  intros o Ho Hne. by apply votePercentages_no_votes.
Qed.

(** A divisor that is not zero gives a finite quotient. *)
Example percentage_examples :
  JS.to_Z (percentage 1 2) = Some 50%Z
  ∧ JS.to_Z (percentage 1 3) = Some 33%Z
  ∧ JS.to_Z (percentage 2 3) = Some 67%Z
  ∧ JS.to_Z (percentage 1 200) = Some 1%Z
  ∧ JS.to_Z (percentage 7 7) = Some 100%Z.
Proof. repeat split. Qed.

(** C7 at 23 votes of 40. The quotient 23/40 is not a binary64 value; the
    nearest one, times 100, is 57.49999999999999, and [Math.round] takes it
    to 57, where 100 * 23 / 40 = 57.5 rounds to 58 by each rule the
    specification allows, and in binary64 arithmetic too. The other option,
    at 42.5, is rounded upwards to 43. *)
Theorem percentage_tie_rounds_down :
  JS.to_Z (percentage 23 40) = Some 57%Z
  ∧ reportedPercentages "p1" (db_split 23 17)
    = Some [("A", Some 57%Z); ("B", Some 43%Z)]
  ∧ roundHalfUp (100 * 23) 40 = 58%Z
  ∧ roundHalfEven (100 * 23) 40 = 58%Z
  ∧ JS.to_Z (JS.Math_round
               (JS.div (JS.mul (JS.of_nat 100) (JS.of_nat 23)) (JS.of_nat 40)))
    = Some 58%Z.
Proof. repeat split; vm_compute; reflexivity. Qed.

(** The scenario of the specification. *)
Example scenario_results :
  reportedTally "p1" db_scenario = Some (Some 2, 2, 2)
  ∧ reportedPercentages "p1" db_scenario
    = Some [("A", Some 50%Z); ("B", Some 50%Z)].
Proof. split; vm_compute; reflexivity. Qed.

(** ** Stores the service can reach *)

Lemma create_store dto generateId now db :
  storeStep db (snd (create dto generateId now db)).
Proof.
  destruct dto as [[q|] os category expires_at]; [|apply step_none].
  destruct (decide (q = EmptyString)) as [->|Hq]; [apply step_none|].
  destruct os as [os|].
  - destruct (decide (length os < 2)) as [Hfew|Hfew].
    { rewrite (create_too_few db generateId now _ _ category expires_at q);
        eauto using step_none. }
    destruct (decide (10 < length os)) as [Hmany|Hmany].
    { rewrite (create_too_many db generateId now _ _ category expires_at q os);
        eauto using step_none. }
    rewrite (create_accepted db generateId now _ _ category expires_at q os);
      [apply step_poll_added | done | done | done | lia].
  - rewrite (create_too_few db generateId now _ _ category expires_at q);
      eauto using step_none.
Qed.

Lemma serve_store db r : storeStep db (serve db r).
Proof.
  destruct r as [|id|dto generateId now| |id dto generateId now|id now|id];
    cbn [serve].
  - rewrite findAll_run. apply step_none.
  - destruct (getPoll id db) as [poll|] eqn:Hget.
    + rewrite (findOne_found id db poll Hget). apply step_none.
    + rewrite findOne_missing by done. apply step_none.
  - apply create_store.
  - rewrite getCategories_run. apply step_none.
  - destruct (vote_store id dto generateId now db)
      as [-> | (voter & option & Hnone & ->)];
      [apply step_none | by apply step_vote_added].
  - destruct (getPoll id db) as [poll|] eqn:Hget.
    + rewrite (close_found id now db poll Hget). apply step_poll_updated.
    + rewrite close_missing by done. apply step_none.
  - destruct (getPoll id db) as [poll|] eqn:Hget.
    + rewrite (remove_found id db poll Hget). apply step_poll_removed.
    + rewrite remove_missing by done. apply step_none.
Qed.

Lemma filter_filter_length {A} (P Q : A → Prop)
    `{!∀ a, Decision (P a), !∀ a, Decision (Q a)} (l : list A) :
  length (filter P (filter Q l)) ≤ length (filter P l).
Proof.
  rewrite list_filter_filter.
  induction l as [|a l IH]; [done|]. rewrite !filter_cons.
  repeat case_decide; cbn [length]; try lia; tauto.
Qed.

Lemma storeStep_oneVotePerVoter db db' :
  storeStep db db' → oneVotePerVoter db → oneVotePerVoter db'.
Proof.
  intros Hstep Hinv. destruct Hstep; try done.
  - by apply oneVotePerVoter_appendVote.
  - intros poll_id voter_id. unfold findByPollAndVoter. cbn [votes].
    etransitivity; [apply filter_filter_length | apply Hinv].
Qed.

Lemma storeStep_votesStoredOnce db db' :
  storeStep db db' → votesStoredOnce db → votesStoredOnce db'.
Proof.
  intros Hstep [Hnd Hlt]. destruct Hstep; try done.
  - split; [done|]. cbn [votes next_id]. eapply Forall_impl; [exact Hlt|].
    intros d Hd. cbn beta in *. lia.
  - unfold appendVote. split; cbn [votes next_id].
    + rewrite fmap_app. apply NoDup_app. split; [done|].
      split; [|apply NoDup_singleton].
      intros i (d & -> & Hd)%list_elem_of_fmap Heq%list_elem_of_singleton.
      rewrite Forall_forall in Hlt. specialize (Hlt d Hd).
      cbn [fmap list_fmap _id] in Heq. lia.
    + apply Forall_app. split.
      * eapply Forall_impl; [exact Hlt|]. intros d Hd. cbn beta in *. lia.
      * apply Forall_singleton. cbn [_id]. lia.
  - split; cbn [votes next_id].
    + by apply NoDup_id_filter.
    + apply Forall_forall. intros d [_ Hd]%list_elem_of_filter.
      rewrite Forall_forall in Hlt. by apply Hlt.
Qed.

(** Whatever requests the service has served from an empty store, no voter
    has two votes on a poll and every stored vote has its own [_id]. *)
Lemma serveAll_invariants rs db :
  oneVotePerVoter db → votesStoredOnce db →
  oneVotePerVoter (serveAll rs db) ∧ votesStoredOnce (serveAll rs db).
Proof.
  revert db. induction rs as [|r rs IH]; intros db Hone Hids; [done|].
  cbn [serveAll foldl]. apply IH.
  - eapply storeStep_oneVotePerVoter; [apply serve_store | done].
  - eapply storeStep_votesStoredOnce; [apply serve_store | done].
Qed.

Lemma empty_invariants : oneVotePerVoter NexaDB.empty ∧ votesStoredOnce NexaDB.empty.
Proof.
  split; [|split].
  - intros poll_id voter_id. cbn. lia.
  - apply NoDup_nil_2.
  - apply Forall_nil_2.
Qed.

Corollary reachable_invariants rs :
  oneVotePerVoter (serveAll rs NexaDB.empty)
  ∧ NoDup (_id <$> votes (serveAll rs NexaDB.empty)).
Proof.
  destruct empty_invariants as [Hone Hids].
  destruct (serveAll_invariants rs NexaDB.empty Hone Hids) as [? [? _]]. done.
Qed.

(** * Further properties of the service *)

(** ** Refused requests *)

Lemma vote_input_run id voteDto generateId now db :
  (∃ e, vote id voteDto generateId now db = (inl e, db))
  ∨ ∃ voter option res,
      voteDto = VoteDto.mk (Some voter) (Some option)
      ∧ voter ≠ EmptyString ∧ option ≠ EmptyString
      ∧ findByPollAndVoter id voter db = []
      ∧ vote id voteDto generateId now db
        = (inr res, appendVote id voter option generateId now db).
Proof.
  destruct voteDto as [[voter|] [option|]]; try (left; by eexists).
  - destruct (decide (voter = EmptyString)) as [->|Hvoter]; [left; by eexists|].
    destruct (decide (option = EmptyString)) as [->|Hoption];
      [left; destruct voter; by eexists|].
    destruct (getPoll id db) as [poll|] eqn:Hget.
    + rewrite (vote_found_run db id voter option generateId now Hvoter Hoption poll Hget).
      case_decide; [left; by eexists|]. case_decide; [left; by eexists|].
      destruct (head (findByPollAndVoter id voter db)) eqn:Hhead;
        [left; by eexists|].
      right. exists voter, option. eexists.
      repeat split; try done. by apply head_None.
    + left. rewrite vote_missing by done. by eexists.
  - left. destruct voter; by eexists.
Qed.

Lemma create_run dto generateId now db :
  (∃ e, create dto generateId now db = (inl e, db))
  ∨ ∃ q os res,
      CreatePollDto.question dto = Some q ∧ q ≠ EmptyString
      ∧ CreatePollDto.options dto = Some os ∧ 2 ≤ length os ≤ 10
      ∧ create dto generateId now db
        = (inr res,
           mkDB (polls db
                 ++ [mkDoc (next_id db)
                       (createdPoll generateId now (CreatePollDto.category dto)
                          (CreatePollDto.expires_at dto) q os)])
                (votes db) (S (next_id db))).
Proof.
  destruct dto as [[q|] os category expires_at]; [|left; by eexists].
  destruct (decide (q = EmptyString)) as [->|Hq]; [left; by eexists|].
  destruct os as [os|].
  - destruct (decide (length os < 2)) as [Hfew|Hfew].
    { left. rewrite (create_too_few db generateId now _ _ category expires_at q);
        eauto. }
    destruct (decide (10 < length os)) as [Hmany|Hmany].
    { left. rewrite (create_too_many db generateId now _ _ category expires_at q os);
        eauto. }
    right. exists q, os. eexists. repeat split; try done; try lia.
    apply create_accepted; try done. lia.
  - left. rewrite (create_too_few db generateId now _ _ category expires_at q);
      eauto.
Qed.

(** A request that is answered with an exception has changed nothing in
    the store: every check of [create], [vote], [close] and [remove] comes
    before the first write. *)
Theorem refused_request_changes_nothing (db : DB) (r : Request) (e : HttpException) :
  failure db r = Some e → serve db r = db.
Proof.
  destruct r as [|id|dto generateId now| |id dto generateId now|id now|id];
    cbn [failure serve]; unfold thrown.
  - by rewrite findAll_run.
  - destruct (getPoll id db) as [poll|] eqn:Hget.
    + by rewrite (findOne_found id db poll Hget).
    + by rewrite findOne_missing.
  - destruct (create_run dto generateId now db)
      as [[e' ->] | (q & os & res & _ & _ & _ & _ & ->)]; done.
  - by rewrite getCategories_run.
  - destruct (vote_input_run id dto generateId now db)
      as [[e' ->] | (voter & option & res & _ & _ & _ & _ & ->)]; done.
  - destruct (getPoll id db) as [poll|] eqn:Hget.
    + by rewrite (close_found id now db poll Hget).
    + by rewrite close_missing.
  - destruct (getPoll id db) as [poll|] eqn:Hget.
    + by rewrite (remove_found id db poll Hget).
    + by rewrite remove_missing.
Qed.

Lemma refused_request_changes_nothing_witness :
  serve db_scenario
    (CastVote "p1" (VoteDto.mk (Some "u1") (Some "B")) "v3" "2024-01-03T00:00:00.000Z")
  = db_scenario.
Proof.
  apply (refused_request_changes_nothing db_scenario _
           (BadRequestException "Already voted: A")).
  reflexivity.
Defined.

(** [vote] looks at the request body before it looks for the poll: without
    a voter it answers "voter_id is required", with a voter but without an
    option "option is required", and only then "Poll not found"; the store
    is left as it was. *)
Theorem vote_checks_body_first
    (db : DB) (id generateId now : string) (voter_id option : option string) :
  let outcome := vote id (VoteDto.mk voter_id option) generateId now db in
  (voter_id = None ∨ voter_id = Some EmptyString →
     outcome = (inl (BadRequestException "voter_id is required"), db))
  ∧ (∀ v, voter_id = Some v → v ≠ EmptyString →
       option = None ∨ option = Some EmptyString →
       outcome = (inl (BadRequestException "option is required"), db))
  ∧ (∀ v o, voter_id = Some v → v ≠ EmptyString →
       option = Some o → o ≠ EmptyString →
       getPoll id db = None →
       outcome = (inl (NotFoundException "Poll not found"), db)).
Proof.
  intros outcome. subst outcome. repeat split.
  - by intros [-> | ->].
  - intros v -> Hv [-> | ->]; by destruct v.
  - intros v o -> Hv -> Ho Hget. by apply vote_missing.
Qed.

(** ** What [findAll] lists *)

(** [findAll] answers with the first 100 stored polls, in store order;
    [count] is the number of polls listed, so a poll stored after the first
    100 is not listed and not counted. The tally of a listed poll is the one
    [findOne] gives when asked for the poll by its id. *)
Theorem findAll_lists_first_100 (db : DB) :
  ∃ res, findAll db = (inr res, db)
  ∧ Tallied.poll <$> FindAllResponse.polls res = take 100 (polls db)
  ∧ FindAllResponse.count res = length (FindAllResponse.polls res)
  ∧ FindAllResponse.count res = 100 `min` length (polls db)
  ∧ (∀ t, t ∈ FindAllResponse.polls res →
       getPoll (Poll.id (data (Tallied.poll t))) db = Some (Tallied.poll t) →
       ∃ r, findOne (Poll.id (data (Tallied.poll t))) db
            = (inr (FindOneResponse.mk true r), db)
         ∧ Results.poll r = Tallied.poll t
         ∧ Results.total_votes r = Tallied.total_votes t
         ∧ Results.vote_counts r = Tallied.vote_counts t).
Proof.
  eexists. split; [apply findAll_run|].
  cbn [FindAllResponse.polls FindAllResponse.count]. repeat split.
  - rewrite <- list_fmap_compose. apply list_fmap_id.
  - by rewrite length_fmap.
  - apply length_take.
  - intros t (p & -> & _)%list_elem_of_fmap Hget.
    cbn [tallyEntry Tallied.poll] in *.
    eexists. split; [by apply findOne_found | done].
Qed.

(** ** What an accepted vote changes *)


Lemma getPoll_appendVote id' id voter option generateId now db :
  getPoll id' (appendVote id voter option generateId now db) = getPoll id' db.
Proof. reflexivity. Qed.

Lemma voteCounts_snoc options votes v :
  voteCounts options (votes ++ [v]) = countVote (voteCounts options votes) v.
Proof. unfold voteCounts. by rewrite foldl_app. Qed.


(** The answer to an accepted vote is the tally that [findOne] gives on the
    store the vote leaves behind. *)
Theorem vote_answer_is_findOne
    (db db' : DB) (id generateId now : string) (voteDto : VoteDto.t)
    (res : VoteResponse.t) :
  vote id voteDto generateId now db = (inr res, db') →
  ∃ r, findOne id db' = (inr (FindOneResponse.mk true r), db')
       ∧ Results.total_votes r = VoteResponse.total_votes res
       ∧ Results.vote_counts r = VoteResponse.vote_counts res.
Proof.
  intros Hvote.
  destruct voteDto as [[voter|] [option|]];
    try (by destruct voter); try done.
  destruct (decide (voter = EmptyString)) as [->|Hvoter]; [done|].
  destruct (decide (option = EmptyString)) as [->|Hoption]; [by destruct voter|].
  destruct (getPoll id db) as [poll|] eqn:Hget.
  2: { by rewrite vote_missing in Hvote. }
  rewrite (vote_found_run db id voter option generateId now Hvoter Hoption poll Hget)
    in Hvote.
  repeat case_decide; try done.
  destruct (head (findByPollAndVoter id voter db)); [done|].
  injection Hvote as <- <-.
  eexists. split.
  - apply findOne_found. by rewrite getPoll_appendVote.
  - unfold resultsEntry.
    cbn [Results.total_votes Results.vote_counts
         VoteResponse.total_votes VoteResponse.vote_counts].
    by rewrite (getPoll_id _ _ _ Hget).
Qed.

Lemma vote_answer_is_findOne_witness :
  ∃ r, findOne "p1" db_scenario = (inr (FindOneResponse.mk true r), db_scenario)
       ∧ Results.total_votes r = 2
       ∧ Results.vote_counts r
         = voteCounts ["A"; "B"] (take 1000 (findByPoll "p1" db_scenario)).
Proof.
  apply (vote_answer_is_findOne
           (snd (vote "p1" (VoteDto.mk (Some "u1") (Some "A")) "v1"
                   "2024-01-01T00:00:01.000Z" db_created))
           db_scenario "p1" "v2" "2024-01-01T00:00:02.000Z"
           (VoteDto.mk (Some "u2") (Some "B"))
           (VoteResponse.mk true "Vote recorded successfully" ("p1", "u2", "B") 2
              (voteCounts ["A"; "B"] (take 1000 (findByPoll "p1" db_scenario))))).
  reflexivity.
Defined.

Section AcceptedVote.
Context (db : DB) (id voter option generateId now : string) (poll : Doc Poll.t).
Context (Hvoter : voter ≠ EmptyString) (Hoption : option ≠ EmptyString).
Context (Hget : getPoll id db = Some poll).
Context (Hactive : Poll.status (data poll) = "active").
Context (Hdeclared : option ∈ Poll.options (data poll)).
Context (Hproto : option ≠ "__proto__").
Context (Hfirst : findByPollAndVoter id voter db = []).

Let stored := findByPoll id db.
Let counts := voteCounts (Poll.options (data poll)) stored.



End AcceptedVote.



(** ** How the operations compose *)

Lemma getPoll_None_filter id db :
  getPoll id db = None → filter (λ d, Poll.id (data d) = id) (polls db) = [].
Proof. unfold getPoll. by intros ?%head_None. Qed.

Lemma getPoll_create_poll id poll db :
  getPoll id db = None → Poll.id poll = id →
  getPoll id (mkDB (polls db ++ [mkDoc (next_id db) poll]) (votes db) (S (next_id db)))
  = Some (mkDoc (next_id db) poll).
Proof.
  intros Hnone Hid. unfold getPoll. cbn [polls].
  rewrite filter_app, (getPoll_None_filter id db Hnone).
  rewrite filter_cons_True by done. reflexivity.
Qed.

(** A poll that has been created under a new id is found by [findOne],
    trimmed, active, with a total of 0 and every option, the name __proto__
    aside, at 0 votes and 0 percent. *)
Theorem created_poll_is_found
    (db : DB) (generateId now question : string) (options : list string)
    (category expires_at : option string) :
  question ≠ EmptyString → 2 ≤ length options ≤ 10 →
  getPoll generateId db = None → findByPoll generateId db = [] →
  let db' :=
    snd (create (CreatePollDto.mk (Some question) (Some options) category expires_at)
           generateId now db) in
  ∃ r, findOne generateId db' = (inr (FindOneResponse.mk true r), db')
    ∧ data (Results.poll r)
      = createdPoll generateId now category expires_at question options
    ∧ Poll.status (data (Results.poll r)) = "active"
    ∧ Results.total_votes r = 0
    ∧ ∀ o, o ∈ options → JS.trim o ≠ "__proto__" →
        Results.vote_counts r !! JS.trim o = Some (JS.Num 0)
        ∧ Results.vote_percentages r !! JS.trim o = Some (JS.of_nat 0).
Proof.
  intros Hq Hlen Hnew Hvotes db'. subst db'.
  rewrite (create_accepted db generateId now _ _ category expires_at question options)
    by done.
  cbn [snd]. eexists. split.
  { apply findOne_found. by apply getPoll_create_poll. }
  unfold resultsEntry.
  cbn [Results.poll Results.total_votes Results.vote_counts Results.vote_percentages
       data createdPoll Poll.id Poll.options Poll.status].
  change (findByPoll generateId (mkDB _ _ _)) with (findByPoll generateId db).
  rewrite Hvotes, take_nil. split; [done|]. split; [done|]. split; [done|].
  intros o Ho Hproto. split.
  - rewrite voteCounts_declared; [done | by apply list_elem_of_fmap_2 | done].
  - apply votePercentages_no_votes; [by apply list_elem_of_fmap_2 | done].
Qed.

Lemma created_poll_is_found_witness :
  ∃ r, findOne "p1" db_created = (inr (FindOneResponse.mk true r), db_created)
    ∧ data (Results.poll r)
      = createdPoll "p1" "2024-01-01T00:00:00.000Z" None None "Pick one" ["A"; "B"]
    ∧ Poll.status (data (Results.poll r)) = "active"
    ∧ Results.total_votes r = 0
    ∧ ∀ o, o ∈ ["A"; "B"] → JS.trim o ≠ "__proto__" →
        Results.vote_counts r !! JS.trim o = Some (JS.Num 0)
        ∧ Results.vote_percentages r !! JS.trim o = Some (JS.of_nat 0).
Proof.
  apply (created_poll_is_found NexaDB.empty "p1" "2024-01-01T00:00:00.000Z"
           "Pick one" ["A"; "B"] None None);
    [done | cbn; lia | reflexivity | reflexivity].
Defined.

Lemma getPoll_closed id now db poll :
  getPoll id db = Some poll →
  getPoll id (snd (close id now db))
  = Some (mkDoc (_id poll) (Poll.set_closed now (data poll))).
Proof.
  intros Hget. rewrite (close_found id now db poll Hget). cbn [snd].
  rewrite getPoll_update_in by done. rewrite Hget.
  cbn [fmap option_fmap option_map]. by rewrite decide_True.
Qed.

(** Once [close] has answered for a poll, a vote on it is refused with
    "Poll is closed", whoever votes and whatever the option, and nothing is
    stored. *)
Theorem vote_after_close_is_refused
    (db : DB) (id closedAt voter option generateId now : string) (poll : Doc Poll.t) :
  voter ≠ EmptyString → option ≠ EmptyString →
  getPoll id db = Some poll →
  let db' := snd (close id closedAt db) in
  vote id (VoteDto.mk (Some voter) (Some option)) generateId now db'
  = (inl (BadRequestException "Poll is closed"), db').
Proof.
  intros Hvoter Hoption Hget db'.
  eapply vote_closed; [done | done | by apply getPoll_closed | done].
Qed.

Lemma vote_after_close_is_refused_witness :
  vote "p1" (VoteDto.mk (Some "u3") (Some "A")) "v3" "2024-01-03T00:00:00.000Z"
       (snd (close "p1" "2024-01-02T00:00:00.000Z" db_scenario))
  = (inl (BadRequestException "Poll is closed"),
     snd (close "p1" "2024-01-02T00:00:00.000Z" db_scenario)).
Proof.
  apply (vote_after_close_is_refused db_scenario "p1" "2024-01-02T00:00:00.000Z"
           "u3" "A" "v3" "2024-01-03T00:00:00.000Z" poll_p1);
    [done | done | reflexivity].
Defined.

(** Closing a poll keeps its results: [findOne] gives the same total, counts
    and percentages before and after, on a poll that differs in status and
    [closed_at] only. *)
Theorem close_keeps_results (db : DB) (id now : string) (poll : Doc Poll.t) :
  getPoll id db = Some poll →
  let db' := snd (close id now db) in
  ∃ r r', findOne id db = (inr (FindOneResponse.mk true r), db)
    ∧ findOne id db' = (inr (FindOneResponse.mk true r'), db')
    ∧ Results.poll r = poll
    ∧ Results.poll r' = mkDoc (_id poll) (Poll.set_closed now (data poll))
    ∧ Results.total_votes r' = Results.total_votes r
    ∧ Results.vote_counts r' = Results.vote_counts r
    ∧ Results.vote_percentages r' = Results.vote_percentages r.
Proof.
  intros Hget db'. eexists _, _.
  split; [by apply findOne_found|].
  split; [apply findOne_found; by apply getPoll_closed|].
  subst db'. rewrite (close_found id now db poll Hget). cbn [snd].
  unfold resultsEntry.
  cbn [Results.poll Results.total_votes Results.vote_counts Results.vote_percentages
       data Poll.set_closed Poll.id Poll.options].
  done.
Qed.

Lemma close_keeps_results_witness :
  ∃ r r', findOne "p1" db_scenario = (inr (FindOneResponse.mk true r), db_scenario)
    ∧ findOne "p1" db_closed = (inr (FindOneResponse.mk true r'), db_closed)
    ∧ Results.poll r = poll_p1
    ∧ Results.poll r'
      = mkDoc (_id poll_p1) (Poll.set_closed "2024-01-02T00:00:00.000Z" (data poll_p1))
    ∧ Results.total_votes r' = Results.total_votes r
    ∧ Results.vote_counts r' = Results.vote_counts r
    ∧ Results.vote_percentages r' = Results.vote_percentages r.
Proof.
  apply (close_keeps_results db_scenario "p1" "2024-01-02T00:00:00.000Z" poll_p1).
  reflexivity.
Defined.

Lemma NoDup_fmap_elem_inj {A B} (f : A → B) (l : list A) x y :
  NoDup (f <$> l) → x ∈ l → y ∈ l → f x = f y → x = y.
Proof.
  intros Hnd Hx Hy Heq.
  apply list_elem_of_lookup in Hx as [i Hi], Hy as [j Hj].
  assert (i = j) as ->; [|congruence].
  eapply NoDup_lookup; [exact Hnd | |];
    rewrite list_lookup_fmap; [by rewrite Hi | by rewrite Hj, Heq].
Qed.

(** Once [remove] has answered for a poll, [findOne] no longer finds it;
    every other poll is still stored, with all its votes. The polls and
    votes are stored under distinct [_id]s and no two polls share an id. *)
Theorem removed_poll_is_gone (db : DB) (id : string) (poll : Doc Poll.t) :
  storedOnce db →
  getPoll id db = Some poll →
  let db' := snd (remove id db) in
  findOne id db' = (inl (NotFoundException "Poll not found"), db')
  ∧ ∀ q, q ∈ polls db → q ≠ poll →
      q ∈ polls db'
      ∧ findByPoll (Poll.id (data q)) db' = findByPoll (Poll.id (data q)) db.
Proof.
  intros (Hpolls & Hvotes & Hids) Hget db'. subst db'.
  rewrite (remove_found id db poll Hget). cbn [snd].
  pose proof (getPoll_elem_of id db poll Hget) as Hin.
  pose proof (getPoll_id id db poll Hget) as Hid.
  split.
  - apply findOne_missing. unfold getPoll. cbn [polls].
    apply head_None, filter_none.
    intros q [Hne Hq]%list_elem_of_filter Hqid.
    apply Hne. f_equal.
    apply (NoDup_fmap_elem_inj (Poll.id ∘ data) (polls db)); try done.
    cbn. congruence.
  - intros q Hq Hne. split.
    + cbn [polls]. apply list_elem_of_filter. split; [|done].
      intros Heq. apply Hne. by apply (NoDup_fmap_elem_inj _id (polls db)).
    + unfold findByPoll at 1. cbn [votes].
      apply remove_keeps_others; [done|].
      intros Heq. apply Hne.
      apply (NoDup_fmap_elem_inj (Poll.id ∘ data) (polls db)); try done.
      cbn. congruence.
Qed.

Lemma removed_poll_is_gone_witness :
  findOne "p1" (snd (remove "p1" db_scenario))
  = (inl (NotFoundException "Poll not found"), snd (remove "p1" db_scenario))
  ∧ ∀ q, q ∈ polls db_scenario → q ≠ poll_p1 →
      q ∈ polls (snd (remove "p1" db_scenario))
      ∧ findByPoll (Poll.id (data q)) (snd (remove "p1" db_scenario))
        = findByPoll (Poll.id (data q)) db_scenario.
Proof.
  apply (removed_poll_is_gone db_scenario "p1" poll_p1); [|reflexivity].
  repeat split; compute_done.
Defined.

(** ** What the stored polls and votes look like *)

Lemma or_else_nonempty a b : b ≠ EmptyString → JS.or_else a b ≠ EmptyString.
Proof.
  intros Hb. unfold JS.or_else. destruct a as [s|]; [|done]. by case_decide.
Qed.

Lemma createdPoll_wellFormed generateId now category expires_at question options :
  2 ≤ length options ≤ 10 →
  pollWellFormed (createdPoll generateId now category expires_at question options).
Proof.
  intros Hlen. unfold pollWellFormed, createdPoll.
  cbn [Poll.options Poll.question Poll.category Poll.status Poll.closed_at].
  rewrite length_fmap.
  split; [lia|]. split; [apply trim_trimmed|].
  split; [apply Forall_fmap, Forall_true; intros o; apply trim_trimmed|].
  split; [|by left].
  eexists. split; [done|]. by apply or_else_nonempty.
Qed.

Lemma set_closed_wellFormed now p :
  pollWellFormed p → pollWellFormed (Poll.set_closed now p).
Proof.
  intros (Hlen & Hq & Hos & Hcat & _). unfold pollWellFormed.
  cbn [Poll.set_closed Poll.options Poll.question Poll.category
       Poll.status Poll.closed_at].
  split; [done|]. split; [done|]. split; [done|]. split; [done|]. by right.
Qed.

Lemma serve_polls_wellFormed db r :
  Forall (pollWellFormed ∘ data) (polls db) →
  Forall (pollWellFormed ∘ data) (polls (serve db r)).
Proof.
  intros Hwf.
  destruct r as [|id|dto generateId now| |id dto generateId now|id now|id];
    cbn [serve].
  - by rewrite findAll_run.
  - destruct (getPoll id db) as [poll|] eqn:Hget.
    + by rewrite (findOne_found id db poll Hget).
    + by rewrite findOne_missing.
  - destruct (create_run dto generateId now db)
      as [[e ->] | (q & os & res & _ & _ & _ & Hlen & ->)]; [done|].
    cbn [snd polls]. apply Forall_app. split; [done|].
    apply Forall_singleton. cbn. by apply createdPoll_wellFormed.
  - by rewrite getCategories_run.
  - destruct (vote_input_run id dto generateId now db)
      as [[e ->] | (voter & option & res & _ & _ & _ & _ & ->)]; done.
  - destruct (getPoll id db) as [poll|] eqn:Hget.
    + rewrite (close_found id now db poll Hget). cbn [snd polls].
      unfold update_in. apply Forall_fmap. eapply Forall_impl; [exact Hwf|].
      intros d Hd. cbn in *. case_decide; [|done].
      cbn. by apply set_closed_wellFormed.
    + by rewrite close_missing.
  - destruct (getPoll id db) as [poll|] eqn:Hget.
    + rewrite (remove_found id db poll Hget). cbn [snd polls].
      unfold delete_in. apply Forall_forall.
      intros d [_ Hd]%list_elem_of_filter.
      rewrite Forall_forall in Hwf. by apply Hwf.
    + by rewrite remove_missing.
Qed.

Lemma serve_votes_wellFormed db r :
  Forall (voteWellFormed ∘ data) (votes db) →
  Forall (voteWellFormed ∘ data) (votes (serve db r)).
Proof.
  intros Hwf.
  destruct r as [|id|dto generateId now| |id dto generateId now|id now|id];
    cbn [serve].
  - by rewrite findAll_run.
  - destruct (getPoll id db) as [poll|] eqn:Hget.
    + by rewrite (findOne_found id db poll Hget).
    + by rewrite findOne_missing.
  - destruct (create_run dto generateId now db)
      as [[e ->] | (q & os & res & _ & _ & _ & _ & ->)]; done.
  - by rewrite getCategories_run.
  - destruct (vote_input_run id dto generateId now db)
      as [[e ->] | (voter & option & res & _ & Hvoter & Hoption & _ & ->)];
      [done|].
    cbn [snd appendVote votes]. apply Forall_app. split; [done|].
    by apply Forall_singleton.
  - destruct (getPoll id db) as [poll|] eqn:Hget.
    + by rewrite (close_found id now db poll Hget).
    + by rewrite close_missing.
  - destruct (getPoll id db) as [poll|] eqn:Hget.
    + rewrite (remove_found id db poll Hget). cbn [snd votes].
      apply Forall_forall. intros d [_ Hd]%list_elem_of_filter.
      rewrite Forall_forall in Hwf. by apply Hwf.
    + by rewrite remove_missing.
Qed.

(** Whatever requests the service has served from an empty store, every
    stored poll has 2 to 10 options, a question and options without white
    space at either end, a category that is not empty, and is either active
    without [closed_at] or closed with it; every stored vote has a voter
    and an option that are not empty. *)
Theorem stored_documents_well_formed (rs : list Request) :
  Forall (pollWellFormed ∘ data) (polls (serveAll rs NexaDB.empty))
  ∧ Forall (voteWellFormed ∘ data) (votes (serveAll rs NexaDB.empty)).
Proof.
  assert (∀ db,
    Forall (pollWellFormed ∘ data) (polls db)
    ∧ Forall (voteWellFormed ∘ data) (votes db) →
    Forall (pollWellFormed ∘ data) (polls (serveAll rs db))
    ∧ Forall (voteWellFormed ∘ data) (votes (serveAll rs db))) as Hall.
  { induction rs as [|r rs IH]; intros db [Hp Hv]; [done|].
    cbn [serveAll foldl]. apply IH.
    split; [by apply serve_polls_wellFormed | by apply serve_votes_wellFormed]. }
  apply Hall. split; apply Forall_nil_2.
Qed.

(** ** What no request does *)

Lemma sameContent_refl p : sameContent p p.
Proof. by repeat split. Qed.

Lemma kept_poll db p : p ∈ polls db → keptOrCreated db p.
Proof. intros Hp. left. exists p. by repeat split. Qed.

(** No request edits a stored poll: after any request every stored poll is
    a poll the store had before, with the same id, question, options,
    category and dates, and closed if it was closed, or it is a poll the
    request has created, which is active. *)
Theorem stored_polls_are_never_edited (db : DB) (r : Request) :
  Forall (keptOrCreated db) (polls (serve db r)).
Proof.
  assert (Forall (keptOrCreated db) (polls db)) as Hkept.
  { apply Forall_forall. intros p. apply kept_poll. }
  destruct r as [|id|dto generateId now| |id dto generateId now|id now|id];
    cbn [serve].
  - by rewrite findAll_run.
  - destruct (getPoll id db) as [poll|] eqn:Hget.
    + by rewrite (findOne_found id db poll Hget).
    + by rewrite findOne_missing.
  - destruct (create_run dto generateId now db)
      as [[e ->] | (q & os & res & _ & _ & _ & _ & ->)]; [done|].
    cbn [snd polls]. apply Forall_app. split; [done|].
    apply Forall_singleton. by right.
  - by rewrite getCategories_run.
  - destruct (vote_input_run id dto generateId now db)
      as [[e ->] | (voter & option & res & _ & _ & _ & _ & ->)]; done.
  - destruct (getPoll id db) as [poll|] eqn:Hget.
    + rewrite (close_found id now db poll Hget). cbn [snd polls].
      unfold update_in. apply Forall_fmap, Forall_forall. intros d Hd.
      cbn. case_decide; [|by apply kept_poll].
      left. exists d. by repeat split.
    + by rewrite close_missing.
  - destruct (getPoll id db) as [poll|] eqn:Hget.
    + rewrite (remove_found id db poll Hget). cbn [snd polls].
      apply Forall_forall. intros d [_ Hd]%list_elem_of_filter.
      by apply kept_poll.
    + by rewrite remove_missing.
Qed.

(** Only [remove] deletes votes, and no request edits one: after a request
    other than [remove] the stored votes are those of before, in the same
    order, followed by at most one new vote; after [remove] they are some of
    those of before. *)
Theorem votes_are_only_deleted_by_remove (db : DB) (r : Request) :
  match r with
  | Remove _ => votes (serve db r) `sublist_of` votes db
  | _ => votes db `prefix_of` votes (serve db r)
         ∧ length (votes (serve db r)) ≤ S (length (votes db))
  end.
Proof.
  destruct r as [|id|dto generateId now| |id dto generateId now|id now|id];
    cbn [serve].
  - rewrite findAll_run. cbn [snd]. split; [done | lia].
  - destruct (getPoll id db) as [poll|] eqn:Hget.
    + rewrite (findOne_found id db poll Hget). cbn [snd]. split; [done | lia].
    + rewrite findOne_missing by done. cbn [snd]. split; [done | lia].
  - destruct (create_run dto generateId now db)
      as [[e ->] | (q & os & res & _ & _ & _ & _ & ->)];
      cbn [snd votes]; (split; [done | lia]).
  - rewrite getCategories_run. cbn [snd]. split; [done | lia].
  - destruct (vote_input_run id dto generateId now db)
      as [[e ->] | (voter & option & res & _ & _ & _ & _ & ->)];
      cbn [snd appendVote votes].
    + split; [done | lia].
    + split; [by apply prefix_app_r|]. rewrite length_app. cbn [length]. lia.
  - destruct (getPoll id db) as [poll|] eqn:Hget.
    + rewrite (close_found id now db poll Hget). cbn [snd votes]. split; [done | lia].
    + rewrite close_missing by done. cbn [snd]. split; [done | lia].
  - destruct (getPoll id db) as [poll|] eqn:Hget.
    + rewrite (remove_found id db poll Hget). cbn [snd votes].
      apply sublist_filter.
    + by rewrite remove_missing.
Qed.

(** ** Categories add up *)

Lemma sum_counts_fmap (f : string → nat) names :
  sum_counts ((λ name, Category.mk name (JS.Own (JS.Num (f name)))) <$> names)
  = Some (foldr (λ name acc, f name + acc) 0 names).
Proof.
  induction names as [|n names IH]; [done|].
  rewrite fmap_cons. unfold sum_counts in *. cbn [foldr].
  rewrite IH. done.
Qed.

(** The default categories do not have the name __proto__. *)
Lemma DEFAULT_CATEGORIES_proto : "__proto__" ∉ DEFAULT_CATEGORIES.
Proof. compute_done. Qed.

(** Where no poll is in the category __proto__, every count is a number. *)
Lemma categoryCount_numbers polls (names : list string) :
  "__proto__" ∉ names →
  (λ name, Category.mk name (categoryCount polls name)) <$> names
  = (λ name, Category.mk name (JS.Own (JS.Num (length (pollsIn name polls)))))
      <$> names.
Proof.
  intros Hnot. apply list_fmap_ext. intros i name Hname%list_elem_of_lookup_2.
  unfold categoryCount. rewrite decide_False; [done|]. by intros ->.
Qed.

Lemma allCategories_proto polls :
  Forall (λ p, categoryOf p ≠ "__proto__") polls →
  "__proto__" ∉ JS.Set_from (DEFAULT_CATEGORIES ++ JS.Set_from (categoryOf <$> polls)).
Proof.
  intros Hall. rewrite Set_from_elem_of, elem_of_app, Set_from_elem_of.
  intros [Hd | (p & Hp & Hin)%list_elem_of_fmap].
  - by apply DEFAULT_CATEGORIES_proto.
  - rewrite Forall_forall in Hall. by apply (Hall p).
Qed.

Lemma sum_indicator (x : string) names :
  NoDup names → x ∈ names →
  foldr (λ name acc, (if decide (x = name) then 1 else 0) + acc) 0 names = 1.
Proof.
  induction names as [|n names IH]; intros Hnd Hx; [by apply elem_of_nil in Hx|].
  apply NoDup_cons in Hnd as [Hn Hnd]. cbn [foldr].
  destruct (decide (x = n)) as [->|Hne].
  - assert (foldr (λ name acc, (if decide (n = name) then 1 else 0) + acc) 0 names = 0)
      as ->; [|done].
    clear IH Hx Hnd. induction names as [|m names IH]; [done|].
    apply not_elem_of_cons in Hn as [Hnm Hn]. cbn [foldr].
    rewrite decide_False by done. by rewrite IH.
  - apply elem_of_cons in Hx as [?|Hx]; [done|]. by rewrite IH.
Qed.

Lemma sum_pollsIn names polls :
  NoDup names → (∀ p, p ∈ polls → categoryOf p ∈ names) →
  foldr (λ name acc, length (pollsIn name polls) + acc) 0 names = length polls.
Proof.
  intros Hnd. induction polls as [|p polls IH]; intros Hall.
  - clear. induction names as [|n names IH]; [done|]. cbn [foldr]. by rewrite IH.
  - assert (foldr (λ name acc, length (pollsIn name (p :: polls)) + acc) 0 names
            = foldr (λ name acc, (if decide (categoryOf p = name) then 1 else 0) + acc)
                0 names
              + foldr (λ name acc, length (pollsIn name polls) + acc) 0 names) as ->.
    { clear. induction names as [|n names IH]; [done|]. cbn [foldr].
      rewrite IH. unfold pollsIn. rewrite filter_cons.
      case_decide; cbn [length]; lia. }
    rewrite sum_indicator; [| done | apply Hall; left].
    rewrite IH; [done|]. intros q Hq. apply Hall. by right.
Qed.

(** When none of the polls read is in the category __proto__, the counts
    that [getCategories] answers with are numbers that add up to
    [total_polls]: every poll read is counted under exactly one listed
    category. *)
Theorem category_counts_add_up (db : DB) :
  Forall (λ p, categoryOf p ≠ "__proto__") (take 1000 (polls db)) →
  ∃ res, getCategories db = (inr res, db)
  ∧ sum_counts (CategoriesResponse.categories res)
    = Some (CategoriesResponse.total_polls res)
  ∧ CategoriesResponse.total_polls res = 1000 `min` length (polls db).
Proof.
  intros Hproto. eexists. split; [apply getCategories_run|].
  rewrite categorySummary_run.
  cbn [CategoriesResponse.categories CategoriesResponse.total_polls].
  split; [|apply length_take].
  rewrite categoryCount_numbers by by apply allCategories_proto.
  rewrite sum_counts_fmap. f_equal. apply sum_pollsIn; [apply Set_from_NoDup|].
  intros p Hp. rewrite Set_from_elem_of, elem_of_app, Set_from_elem_of.
  right. by apply list_elem_of_fmap_2.
Qed.

Lemma category_counts_add_up_witness :
  ∃ res, getCategories db_scenario = (inr res, db_scenario)
  ∧ sum_counts (CategoriesResponse.categories res)
    = Some (CategoriesResponse.total_polls res)
  ∧ CategoriesResponse.total_polls res = 1000 `min` length (polls db_scenario).
Proof.
  apply (category_counts_add_up db_scenario). compute_done.
Defined.

(** One poll in the category __proto__: the count under that name is not a
    number, and the counts do not add up. *)
Example category_counts_proto :
  categoriesReport db_proto_category
  = Some ([("General", Some 0); ("Technology", Some 0); ("Sports", Some 0);
           ("Entertainment", Some 0); ("Politics", Some 0);
           ("Food & Drinks", Some 0); ("Travel", Some 0); ("Health", Some 0);
           ("Education", Some 0); ("Business", Some 0); ("__proto__", None)],
          1).
Proof. vm_compute. reflexivity. Qed.

(** ** The tally away from the names of [Object.prototype] *)

(** Every declared option other than __proto__ has a counter, which starts
    at 0 and ends at the number of votes that name the option. A vote whose
    option is neither declared nor a name of [Object.prototype] changes no
    counter: the tally is the same with or without it. When every vote
    names a declared option or a name that [Object.prototype] does not
    have, the keys of the counts are the declared options other than
    __proto__. *)
Theorem tally_counts_other_names
    (options : list string) (votes : list (Doc Vote.t)) :
  (∀ o, o ∈ options → o ≠ "__proto__" →
     voteCounts options [] !! o = Some (JS.Num 0))
  ∧ (∀ o, o ∈ options → o ≠ "__proto__" →
       voteCounts options votes !! o = Some (JS.Num (length (votesFor o votes))))
  ∧ (∀ v before after,
       Vote.option (data v) ∉ options →
       Vote.option (data v) ∉ JS.Object_prototype →
       voteCounts options (before ++ v :: after)
       = voteCounts options (before ++ after))
  ∧ (Forall (λ v, Vote.option (data v) ∈ options
                  ∨ Vote.option (data v) ∉ JS.Object_prototype) votes →
     dom (voteCounts options votes) = list_to_set options ∖ {["__proto__"]}).
Proof.
  split; [|split; [|split]].
  - intros o Ho Hne. by rewrite voteCounts_declared.
  - intros o Ho Hne. by apply voteCounts_declared.
  - intros v before after Hv Hinh. apply map_eq. intros o.
    rewrite !voteCounts_lookup.
    destruct (decide (Vote.option (data v) = o)) as [<-|Hne].
    + rewrite !decide_False; [done | | | |]; by intros [? _].
    + by rewrite !votesFor_app, votesFor_skip.
  - intros Hall. apply set_eq. intros o.
    rewrite elem_of_dom, voteCounts_lookup, elem_of_difference,
      elem_of_list_to_set, elem_of_singleton.
    destruct (decide (o ∈ options ∧ o ≠ "__proto__")) as [[Ho Hne]|Hnot].
    { split; [done | by eexists]. }
    rewrite decide_False.
    { split; [by intros [? ?] | tauto]. }
    intros (Hinh & Hne & Hvotes).
    destruct (votesFor o votes) as [|v vs] eqn:Hvs; [done|].
    assert (v ∈ votesFor o votes) as Hv by (rewrite Hvs; left).
    apply list_elem_of_filter in Hv as [Hopt Hv].
    rewrite Forall_forall in Hall. destruct (Hall v Hv) as [Hd|Hn].
    + apply Hnot. split; [by rewrite <- Hopt | done].
    + apply Hn. by rewrite Hopt.
Qed.

(** ** The tally and the order of the votes *)

Lemma votesFor_Permutation o (votes votes' : list (Doc Vote.t)) :
  votes ≡ₚ votes' → length (votesFor o votes) = length (votesFor o votes').
Proof. intros Hp. unfold votesFor. by rewrite Hp. Qed.

(** The tally does not depend on the order in which the store returns the
    votes: the same votes in another order give the same counts, the same
    total and the same percentages. *)
Theorem tally_ignores_vote_order
    (options : list string) (votes votes' : list (Doc Vote.t)) :
  votes ≡ₚ votes' →
  voteCounts options votes = voteCounts options votes'
  ∧ length votes = length votes'
  ∧ votePercentages options (voteCounts options votes) (length votes)
    = votePercentages options (voteCounts options votes') (length votes').
Proof.
  intros Hp.
  assert (voteCounts options votes = voteCounts options votes') as Hcounts.
  { apply map_eq. intros o. rewrite !voteCounts_lookup.
    rewrite (votesFor_Permutation o votes votes') by done.
    assert (votesFor o votes ≠ [] ↔ votesFor o votes' ≠ []) as Hsome.
    { pose proof (votesFor_Permutation o votes votes' Hp) as Hlen.
      destruct (votesFor o votes), (votesFor o votes'); done. }
    repeat case_decide; try done; tauto. }
  split; [done|]. split; [by rewrite Hp|]. by rewrite Hcounts, Hp.
Qed.

Lemma tally_ignores_vote_order_witness :
  voteCounts ["A"; "B"] (votes db_scenario)
  = voteCounts ["A"; "B"] (reverse (votes db_scenario))
  ∧ length (votes db_scenario) = length (reverse (votes db_scenario))
  ∧ votePercentages ["A"; "B"] (voteCounts ["A"; "B"] (votes db_scenario))
      (length (votes db_scenario))
    = votePercentages ["A"; "B"] (voteCounts ["A"; "B"] (reverse (votes db_scenario)))
        (length (reverse (votes db_scenario))).
Proof.
  apply (tally_ignores_vote_order ["A"; "B"] (votes db_scenario)
           (reverse (votes db_scenario))).
  symmetry. apply reverse_Permutation.
Defined.

(** ** A poll without votes *)

Lemma findOne_no_votes_witness :
  ∃ r, findOne "p1" db_created = (inr (FindOneResponse.mk true r), db_created)
       ∧ Results.total_votes r = 0
       ∧ ∀ o, o ∈ Poll.options (data poll_p1) → o ≠ "__proto__" →
           Results.vote_percentages r !! o = Some (JS.of_nat 0).
Proof.
  apply (findOne_no_votes "p1" db_created poll_p1); reflexivity.
Defined.

(** * The front end *)

(** ** The option inputs of the create form *)

Lemma filter_index_delete {A} (index k : nat) (l : list A) :
  App.filter_index (λ _ i, negb (bool_decide (i = index))) k l
  = if decide (k ≤ index) then delete (index - k) l else l.
Proof.
  revert k. induction l as [|x l IH]; intros k; cbn [App.filter_index].
  - by case_decide.
  - rewrite IH. destruct (decide (k = index)) as [->|Hne].
    + rewrite bool_decide_eq_true_2 by done. cbn [negb].
      rewrite decide_False by lia. rewrite decide_True by lia.
      by rewrite Nat.sub_diag.
    + rewrite bool_decide_eq_false_2 by done. cbn [negb].
      destruct (decide (k ≤ index)) as [Hle|Hgt].
      * rewrite decide_True by lia.
        replace (index - k) with (S (index - S k)) by lia. done.
      * by rewrite decide_False by lia.
Qed.

(** [removeOption] takes out the input at [index] when there are more than
    two; with two inputs, or an index past the end, nothing changes. *)
Lemma removeOption_delete index options :
  App.removeOption index options
  = if decide (2 < length options) then delete index options else options.
Proof.
  unfold App.removeOption. case_decide; [|done].
  rewrite filter_index_delete, decide_True by lia. by rewrite Nat.sub_0_r.
Qed.

Lemma formStep_length options options' :
  App.formStep options options' →
  2 ≤ length options ≤ 6 → 2 ≤ length options' ≤ 6.
Proof.
  intros Hstep Hlen. destruct Hstep as [|index|index value options' Hin Hupd|].
  - unfold App.addOption. case_decide; [|done].
    rewrite length_app. cbn [length]. lia.
  - rewrite removeOption_delete. case_decide; [|done].
    destruct (decide (index < length options)) as [Hin|Hout].
    + apply lookup_lt_is_Some in Hin.
      pose proof (length_delete options index Hin). lia.
    + rewrite delete_take_drop, take_ge, drop_ge, app_nil_r by lia. done.
  - unfold App.updateOption in Hupd. rewrite decide_True in Hupd by done.
    injection Hupd as <-. by rewrite length_insert.
  - cbn. lia.
Qed.

(** Whatever the user does to the create form (add an option, remove one,
    type into one, submit), it shows between 2 and 6 option inputs. *)
Theorem form_has_2_to_6_options (options : list string) :
  rtc App.formStep App.initialOptions options → 2 ≤ length options ≤ 6.
Proof.
  intros Hsteps.
  assert (2 ≤ length App.initialOptions ≤ 6) as Hinit by (cbn; lia).
  induction Hsteps as [|o1 o2 o3 Hstep _ IH]; [done|].
  apply IH. by eapply formStep_length.
Qed.

Lemma form_has_2_to_6_options_witness :
  2 ≤ length ["Yes"; "No"; EmptyString] ≤ 6.
Proof.
  apply (form_has_2_to_6_options ["Yes"; "No"; EmptyString]).
  eapply rtc_l; [apply (App.form_update _ 0 "Yes"); [cbn; lia | reflexivity]|].
  eapply rtc_l; [apply (App.form_update _ 1 "No"); [cbn; lia | reflexivity]|].
  eapply rtc_l; [apply App.form_add|]. apply rtc_refl.
Defined.

(** ** What the create form posts *)

Lemma trimStart_id s :
  (∀ c, firstChar s = Some c → JS.isWhiteSpace c = false) → JS.trimStart s = s.
Proof.
  destruct s as [|c s]; [done|]. intros Hc. cbn [JS.trimStart].
  by rewrite (Hc c).
Qed.

Lemma trimEnd_id s :
  (∀ c, lastChar s = Some c → JS.isWhiteSpace c = false) → JS.trimEnd s = s.
Proof.
  induction s as [|c s IH]; [done|]. intros Hc. cbn [JS.trimEnd].
  destruct s as [|c' s'].
  - cbn [JS.trimEnd]. by rewrite (Hc c).
  - rewrite IH by (intros c0 Hc0; by apply Hc). done.
Qed.

(** Trimming twice is trimming once. *)
Lemma trim_idempotent s : JS.trim (JS.trim s) = JS.trim s.
Proof.
  destruct (trim_trimmed s) as [Hfirst Hlast].
  unfold JS.trim at 1. rewrite (trimStart_id _ Hfirst). by apply trimEnd_id.
Qed.

(** The body the create form posts is never refused by [create]: the poll
    is stored with the question as typed, trimmed and not empty, and with
    the options that were filled in, trimmed, none of them empty, at most
    as many as the form had inputs. An empty form posts nothing. *)
Theorem form_request_is_accepted
    (db : DB) (generateId now question selectedCategory : string)
    (options : list string) (dto : CreatePollDto.t) :
  length options ≤ 10 →
  App.handleCreatePoll question options selectedCategory = Some dto →
  ∃ res poll,
    create dto generateId now db
    = (inr res, mkDB (polls db ++ [mkDoc (next_id db) poll]) (votes db)
                     (S (next_id db)))
    ∧ Poll.question poll = JS.trim question
    ∧ Poll.question poll ≠ EmptyString
    ∧ Poll.options poll
      = JS.trim <$> filter (λ o, JS.trim o ≠ EmptyString) options
    ∧ Forall (λ o, o ≠ EmptyString) (Poll.options poll)
    ∧ 2 ≤ length (Poll.options poll) ≤ length options.
Proof.
  intros Hlen Hreq. unfold App.handleCreatePoll in Hreq.
  case_decide as Hguard; [done|]. injection Hreq as <-.
  assert (JS.trim question ≠ EmptyString) as Hq
    by (intros ?; apply Hguard; by left).
  assert (¬ length (filter (λ o, JS.trim o ≠ EmptyString) options) < 2) as Hfilled
    by (intros ?; apply Hguard; by right).
  pose proof (length_filter (λ o, JS.trim o ≠ EmptyString) options) as Hle.
  eexists _, _. split.
  { apply create_accepted; [done | done | done | lia]. }
  cbn [createdPoll Poll.question Poll.options].
  rewrite trim_idempotent, length_fmap.
  repeat split; try done; try lia.
  apply Forall_fmap, Forall_forall. intros o [Ho _]%list_elem_of_filter. done.
Qed.

Lemma form_request_is_accepted_witness :
  ∃ res poll,
    create (CreatePollDto.mk (Some "Pick one") (Some ["Yes"; "No"])
              (Some "General") None)
           "p2" "2024-01-04T00:00:00.000Z" db_scenario
    = (inr res, mkDB (polls db_scenario ++ [mkDoc (next_id db_scenario) poll])
                     (votes db_scenario) (S (next_id db_scenario)))
    ∧ Poll.question poll = JS.trim " Pick one "
    ∧ Poll.question poll ≠ EmptyString
    ∧ Poll.options poll
      = JS.trim <$> filter (λ o, JS.trim o ≠ EmptyString) ["Yes"; "No"; " "]
    ∧ Forall (λ o, o ≠ EmptyString) (Poll.options poll)
    ∧ 2 ≤ length (Poll.options poll) ≤ length ["Yes"; "No"; " "].
Proof.
  apply (form_request_is_accepted db_scenario "p2" "2024-01-04T00:00:00.000Z"
           " Pick one " "General" ["Yes"; "No"; " "]);
    [cbn; lia | reflexivity].
Defined.

(** ** Searching and filtering the polls *)

Lemma lowerChar_idempotent c :
  JsString.lowerChar (JsString.lowerChar c) = JsString.lowerChar c.
Proof. destruct c as [[] [] [] [] [] [] [] []]; reflexivity. Qed.

Lemma toLowerCase_idempotent s :
  JsString.toLowerCase (JsString.toLowerCase s) = JsString.toLowerCase s.
Proof.
  induction s as [|c s IH]; [done|]. cbn [JsString.toLowerCase].
  by rewrite lowerChar_idempotent, IH.
Qed.

Lemma toLowerCase_empty s :
  JsString.toLowerCase s = EmptyString ↔ s = EmptyString.
Proof. by destruct s. Qed.

(** The search does not look at the case of the query: two queries that are
    the same in lower case show the same polls. Without category and without
    query every poll is shown. *)
Theorem search_ignores_case
    (polls : list App.Poll) (filterCategory : option string) (q q' : string) :
  JsString.toLowerCase q = JsString.toLowerCase q' →
  App.filteredPolls polls filterCategory q = App.filteredPolls polls filterCategory q'
  ∧ App.filteredPolls polls filterCategory (JsString.toLowerCase q)
    = App.filteredPolls polls filterCategory q
  ∧ App.filteredPolls polls None EmptyString = polls.
Proof.
  intros Hq.
  assert (∀ q1 q2, JsString.toLowerCase q1 = JsString.toLowerCase q2 →
          ∀ poll, App.matchesSearch q1 poll = App.matchesSearch q2 poll) as Hsame.
  { intros q1 q2 H12 poll. unfold App.matchesSearch. rewrite H12.
    destruct q1, q2; try done. }
  repeat split.
  - unfold App.filteredPolls. apply list_filter_iff. intros poll.
    by rewrite (Hsame q q' Hq).
  - unfold App.filteredPolls. apply list_filter_iff. intros poll.
    by rewrite (Hsame (JsString.toLowerCase q) q (toLowerCase_idempotent q)).
  - unfold App.filteredPolls. by apply filter_all.
Qed.

Lemma search_ignores_case_witness :
  App.filteredPolls (App.transformPoll <$> (tallyEntry db_scenario <$> polls db_scenario))
    None "PICK"
  = App.filteredPolls (App.transformPoll <$> (tallyEntry db_scenario <$> polls db_scenario))
      None "pick"
  ∧ App.filteredPolls
      (App.transformPoll <$> (tallyEntry db_scenario <$> polls db_scenario))
      None (JsString.toLowerCase "PICK")
    = App.filteredPolls
        (App.transformPoll <$> (tallyEntry db_scenario <$> polls db_scenario))
        None "PICK"
  ∧ App.filteredPolls
      (App.transformPoll <$> (tallyEntry db_scenario <$> polls db_scenario))
      None EmptyString
    = App.transformPoll <$> (tallyEntry db_scenario <$> polls db_scenario).
Proof.
  apply (search_ignores_case _ None "PICK" "pick"). reflexivity.
Defined.

Example search_finds_pick_one :
  App.question
    <$> App.filteredPolls
          (App.transformPoll
             <$> (App.received <$> (tallyEntry db_scenario <$> polls db_scenario)))
          (Some "General") "PICK"
  = ["Pick one"].
Proof. vm_compute. reflexivity. Qed.

(** ** The category side bar *)

Lemma filter_fmap_length {A B} (f : A → B) (P : B → Prop) `{!∀ b, Decision (P b)}
    (l : list A) :
  length (filter P (f <$> l)) = length (filter (P ∘ f) l).
Proof.
  induction l as [|a l IH]; [done|].
  rewrite fmap_cons, !filter_cons. cbn [compose].
  case_decide; cbn [length]; by rewrite IH.
Qed.

Lemma categoryOf_nonempty p : categoryOf p ≠ EmptyString.
Proof. by apply or_else_nonempty. Qed.

Lemma transformPoll_category db p :
  App.category (App.transformPoll (App.received (tallyEntry db p))) = categoryOf p.
Proof. reflexivity. Qed.

(** Filtering the fetched polls by a category keeps the polls the service
    counts under it. *)
Lemma filteredPolls_category db (shown : list (Doc Poll.t)) name :
  name ≠ EmptyString →
  length (App.filteredPolls
            (App.transformPoll <$> (App.received <$> (tallyEntry db <$> shown)))
            (Some name) EmptyString)
  = length (pollsIn name shown).
Proof.
  intros Hname. unfold App.filteredPolls, pollsIn.
  rewrite <- !list_fmap_compose, filter_fmap_length.
  f_equal. apply list_filter_iff. intros p. cbn [compose].
  destruct name as [|c name]; [done|].
  cbn [App.matchesCategory App.matchesSearch].
  rewrite andb_true_r, transformPoll_category.
  apply bool_decide_spec.
Qed.

(** With at most 100 polls stored, the count that [getCategories] answers
    with for a category, the name __proto__ aside, is the number of polls
    the page lists when that category is selected. *)
Theorem sidebar_count_is_polls_listed (db : DB) :
  length (polls db) ≤ 100 →
  ∃ listed summary,
    findAll db = (inr listed, db)
    ∧ getCategories db = (inr summary, db)
    ∧ ∀ c, c ∈ CategoriesResponse.categories summary →
        Category.name c ≠ "__proto__" →
        Category.count c
        = JS.Own (JS.Num (length (App.filteredPolls (App.fetchPolls listed)
                                    (Some (Category.name c)) EmptyString))).
Proof.
  intros Hfew. eexists _, _.
  split; [apply findAll_run|]. split; [apply getCategories_run|].
  rewrite categorySummary_run.
  cbn [CategoriesResponse.categories]. unfold App.fetchPolls.
  cbn [FindAllResponse.polls].
  rewrite !take_ge by lia.
  intros c (name & -> & Hname)%list_elem_of_fmap Hproto.
  cbn [Category.name Category.count] in *.
  unfold categoryCount. rewrite decide_False by done.
  rewrite filteredPolls_category; [done|].
  rewrite Set_from_elem_of, elem_of_app, Set_from_elem_of in Hname.
  destruct Hname as [Hdefault | (p & -> & _)%list_elem_of_fmap].
  - intros ->. revert Hdefault. compute_done.
  - apply categoryOf_nonempty.
Qed.

Lemma sidebar_count_is_polls_listed_witness :
  ∃ listed summary,
    findAll db_scenario = (inr listed, db_scenario)
    ∧ getCategories db_scenario = (inr summary, db_scenario)
    ∧ ∀ c, c ∈ CategoriesResponse.categories summary →
        Category.name c ≠ "__proto__" →
        Category.count c
        = JS.Own (JS.Num (length (App.filteredPolls (App.fetchPolls listed)
                                    (Some (Category.name c)) EmptyString))).
Proof.
  apply (sidebar_count_is_polls_listed db_scenario). vm_compute. lia.
Defined.

(** ** The percentages the page shows *)

Section PageTotal.
Implicit Types (m : gmap string JS.primitive) (k : string).

Lemma getTotalVotes_insert m k p :
  m !! k = None →
  App.getTotalVotes (<[k := p]> m) = JS.plus (App.getTotalVotes m) p.
Proof.
  intros Hk. unfold App.getTotalVotes. rewrite map_fold_insert_L; [done | | done].
  intros j1 j2 z1 z2 y _ _ _.
  destruct y, z1, z2; cbn; try done; f_equal; lia.
Qed.

Lemma numeric_delete m k : numeric m → numeric (delete k m).
Proof.
  intros Hm k' p Hp. apply lookup_delete_Some in Hp as [_ Hp]. by apply (Hm k').
Qed.

Lemma received_insert m k p :
  JS.JSON_roundtrip (<[k := p]> m)
  = <[k := match p with JS.NaN => JS.Null | _ => p end]> (JS.JSON_roundtrip m).
Proof. unfold JS.JSON_roundtrip. by rewrite fmap_insert. Qed.

Lemma received_lookup_None m k :
  m !! k = None → JS.JSON_roundtrip m !! k = None.
Proof. intros Hk. unfold JS.JSON_roundtrip. by rewrite lookup_fmap, Hk. Qed.

(** On the page, such counters add up to a number: NaN has arrived as
    [null] and adds nothing. *)
Lemma getTotalVotes_numeric m :
  numeric m → ∃ t, App.getTotalVotes (JS.JSON_roundtrip m) = JS.Num t.
Proof.
  induction m as [|k p m Hnone IH] using map_ind; intros Hm.
  - by exists 0.
  - destruct IH as [t Ht].
    { intros k' p' Hp'. apply (Hm k').
      rewrite lookup_insert_ne; [done|]. intros ->. congruence. }
    rewrite received_insert, getTotalVotes_insert by by apply received_lookup_None.
    rewrite Ht.
    destruct (Hm k p) as [->|[n ->]]; [apply lookup_insert_eq | |]; cbn; eauto.
Qed.

Lemma getTotalVotes_bump m k n t :
  numeric m → m !! k = Some (JS.Num n) →
  App.getTotalVotes (JS.JSON_roundtrip m) = JS.Num t →
  App.getTotalVotes (JS.JSON_roundtrip (<[k := JS.Num (S n)]> m)) = JS.Num (S t).
Proof.
  intros Hm Hk Ht.
  destruct (getTotalVotes_numeric (delete k m)) as [t0 Ht0];
    [by apply numeric_delete|].
  rewrite <- (insert_delete_id m k (JS.Num n) Hk) in Ht.
  rewrite received_insert, getTotalVotes_insert in Ht
    by (apply received_lookup_None, lookup_delete_eq).
  rewrite <- (insert_delete_eq m k (JS.Num (S n))).
  rewrite received_insert, getTotalVotes_insert
    by (apply received_lookup_None, lookup_delete_eq).
  rewrite Ht0 in *. cbn in *. injection Ht as <-. f_equal. lia.
Qed.

Lemma getTotalVotes_NaN m k t :
  m !! k = None →
  App.getTotalVotes (JS.JSON_roundtrip m) = JS.Num t →
  App.getTotalVotes (JS.JSON_roundtrip (<[k := JS.NaN]> m)) = JS.Num t.
Proof.
  intros Hk Ht.
  rewrite received_insert, getTotalVotes_insert by by apply received_lookup_None.
  by rewrite Ht.
Qed.

Lemma voteCounts_numeric options votes : numeric (voteCounts options votes).
Proof.
  intros k p. rewrite voteCounts_lookup.
  repeat case_decide; intros; simplify_eq; eauto.
Qed.

(** The total the page computes from the counters it has received: the
    number of votes that name a declared option other than __proto__. *)
Lemma getTotalVotes_voteCounts options votes :
  App.getTotalVotes (JS.JSON_roundtrip (voteCounts options votes))
  = JS.Num (length (filter (λ v, Vote.option (data v) ∈ options
                                 ∧ Vote.option (data v) ≠ "__proto__") votes)).
Proof.
  induction votes as [|v votes IH] using rev_ind.
  - destruct (getTotalVotes_numeric (voteCounts options []))
      as [t Ht]; [apply voteCounts_numeric|].
    cbn [filter list_filter length]. rewrite Ht. f_equal.
    assert (sum_values (voteCounts options []) = Some 0) as Hsum.
    { by apply (sum_values_voteCounts_all options []); intros v ?%elem_of_nil. }
    revert Ht Hsum. generalize (voteCounts_numeric options []).
    generalize (voteCounts options []) as m. clear. intros m.
    revert t. induction m as [|k p m Hnone IH] using map_ind; intros t Hm Ht Hsum.
    + cbn in Ht. by injection Ht.
    + rewrite received_insert, getTotalVotes_insert in Ht
        by by apply received_lookup_None.
      rewrite sum_values_insert in Hsum by done.
      destruct (getTotalVotes_numeric m) as [t0 Ht0].
      { intros k' p' Hp'. apply (Hm k').
        rewrite lookup_insert_ne; [done|]. intros ->. congruence. }
      destruct p as [n| | |]; try done.
      destruct (sum_values m) as [s|] eqn:Hs; [|done].
      injection Hsum as Hsum. assert (n = 0 ∧ s = 0) as [-> ->] by lia.
      rewrite Ht0 in Ht. cbn in Ht. injection Ht as <-.
      rewrite Nat.add_0_r. apply IH; [|done..].
      intros k' p' Hp'. apply (Hm k').
      rewrite lookup_insert_ne; [done|]. intros ->. congruence.
  - rewrite voteCounts_snoc, filter_app, length_app.
    pose proof (voteCounts_lookup options votes (Vote.option (data v))) as Hk.
    rewrite filter_cons, filter_nil.
    destruct (decide (Vote.option (data v) ∈ options
                      ∧ Vote.option (data v) ≠ "__proto__")) as [Hin|Hout].
    + rewrite (countVote_counted _ _ _ Hk).
      rewrite (getTotalVotes_bump _ _ _ _ (voteCounts_numeric _ _) Hk IH).
      cbn [length]. f_equal. lia.
    + cbn [length]. rewrite Nat.add_0_r.
      unfold countVote. cbv zeta. unfold JS.get. rewrite Hk.
      case_decide as Hinh.
      * cbn [JS.defined JS.increment]. unfold JS.set. rewrite Hk.
        by rewrite insert_id.
      * destruct (decide (Vote.option (data v) ∈ JS.Object_prototype)) as [Hp|Hp];
          cbn [JS.defined]; [|done].
        unfold JS.set. rewrite Hk.
        case_decide as Hproto; [done|].
        by apply getTotalVotes_NaN.
Qed.

End PageTotal.

(** The page computes the percentage of an option from the counters it has
    received: the divisor is their sum, the number of votes that name a
    declared option other than __proto__. For an option other than
    __proto__ this is the percentage of the votes counted; when every vote
    of the poll is counted, it is the percentage [findOne] answers with. *)
Theorem page_percentage_is_of_counted_votes
    (options : list string) (votes : list (Doc Vote.t)) (o : string) :
  o ∈ options → o ≠ "__proto__" →
  let counts := JS.JSON_roundtrip (voteCounts options votes) in
  let counted := filter (λ v, Vote.option (data v) ∈ options
                              ∧ Vote.option (data v) ≠ "__proto__") votes in
  App.getVotePercentage counts o
  = percentage (length (votesFor o votes)) (length counted)
  ∧ (Forall (λ v, Vote.option (data v) ∈ options
                  ∧ Vote.option (data v) ≠ "__proto__") votes →
     votePercentages options (voteCounts options votes) (length votes) !! o
     = Some (App.getVotePercentage counts o)).
Proof.
  intros Ho Hproto counts counted.
  assert (App.getVotePercentage counts o
          = percentage (length (votesFor o votes)) (length counted)) as Hpage.
  { unfold App.getVotePercentage, percentage, percentageOf. cbv zeta.
    unfold counts. rewrite getTotalVotes_voteCounts. fold counted.
    rewrite (get_Own _ _ (JS.Num (length (votesFor o votes)))).
    2: { unfold JS.JSON_roundtrip.
         by rewrite lookup_fmap, voteCounts_declared. }
    cbn [JS.toNumber].
    destruct (length counted) as [|n]; [done|].
    rewrite decide_False by done. by rewrite decide_True by lia. }
  split; [done|]. intros Hall.
  rewrite (votePercentages_counted _ _ _ _ (length (votesFor o votes)));
    [| done | done | by apply voteCounts_declared].
  rewrite Hpage. unfold counted. rewrite filter_all; [done|].
  by apply Forall_forall.
Qed.

Lemma page_percentage_is_of_counted_votes_witness :
  let counts := JS.JSON_roundtrip (voteCounts ["A"; "B"] (votes db_scenario)) in
  let counted := filter (λ v, Vote.option (data v) ∈ ["A"; "B"]
                              ∧ Vote.option (data v) ≠ "__proto__")
                   (votes db_scenario) in
  App.getVotePercentage counts "A"
  = percentage (length (votesFor "A" (votes db_scenario))) (length counted)
  ∧ (Forall (λ v, Vote.option (data v) ∈ ["A"; "B"]
                  ∧ Vote.option (data v) ≠ "__proto__") (votes db_scenario) →
     votePercentages ["A"; "B"] (voteCounts ["A"; "B"] (votes db_scenario))
       (length (votes db_scenario)) !! "A"
     = Some (App.getVotePercentage counts "A")).
Proof.
  apply (page_percentage_is_of_counted_votes ["A"; "B"] (votes db_scenario) "A");
    [compute_done | done].
Defined.

(** With a stored vote for an option the poll does not declare, or with a
    vote for a declared option __proto__, the page and [findOne] disagree:
    one vote for A and one stray vote are 100 percent for A on the page and
    50 percent in the answer of [findOne]. *)
Example page_percentage_with_stray_vote :
  let votes := [mkDoc 1 (Vote.mk "v1" "p1" "u1" "A" "t");
                mkDoc 2 (Vote.mk "v2" "p1" "u2" "C" "t")] in
  let counts := voteCounts ["A"; "B"] votes in
  JS.to_Z (App.getVotePercentage (JS.JSON_roundtrip counts) "A") = Some 100%Z
  ∧ votePercentages ["A"; "B"] counts (length votes) !! "A" ≫= JS.to_Z = Some 50%Z.
Proof. split; vm_compute; reflexivity. Qed.

Example page_percentage_with_proto_vote :
  let votes := [mkDoc 1 (Vote.mk "v1" "p1" "u1" "B" "t");
                mkDoc 2 (Vote.mk "v2" "p1" "u2" "__proto__" "t")] in
  let counts := voteCounts ["__proto__"; "B"] votes in
  JS.to_Z (App.getVotePercentage (JS.JSON_roundtrip counts) "B") = Some 100%Z
  ∧ votePercentages ["__proto__"; "B"] counts (length votes) !! "B" ≫= JS.to_Z
    = Some 50%Z.
Proof. split; vm_compute; reflexivity. Qed.

(** ** One vote per voter, for the service as a whole *)

(** Whatever requests of whatever kind the service has served from an empty
    store, one after the other, no voter has two stored votes on one poll,
    and the stored votes have distinct [_id]s below the next one. *)
Theorem served_store_has_one_vote_per_voter (rs : list Request) :
  (∀ poll_id voter_id,
     length (findByPollAndVoter poll_id voter_id (serveAll rs NexaDB.empty)) ≤ 1)
  ∧ NoDup (_id <$> votes (serveAll rs NexaDB.empty))
  ∧ Forall (λ d, _id d < next_id (serveAll rs NexaDB.empty))
           (votes (serveAll rs NexaDB.empty)).
Proof.
  destruct empty_invariants as [Hone Hids].
  destruct (serveAll_invariants rs NexaDB.empty Hone Hids) as [Hone' [Hnd Hlt]].
  done.
Qed.
